(** * File integrity checker: hashing, snapshot store and the three commands

    A shallow embedding of [integrity_checker.py].  Python strings are
    modelled as [string] (the sequence of their UTF-8 bytes), file contents as
    [list byte], the dictionary of stored hashes as [gmap string string].

    The file system is a finite tree of regular files, directories and other
    nodes (no symbolic links), with a working directory; path strings are
    resolved in it component by component.  [pathlib] is modelled by the
    parsing and printing of [PurePosixPath] and by the order in which
    [rglob] visits a tree (each directory's entries, then its
    sub-directories in turn).

    The two libraries the program calls, [hashlib] and [yaml], are
    interfaces: every theorem holds for any implementation of them, the
    theorems about stored mappings for any YAML codec that loads back what it
    dumped.  A command is a function from the state (file system and lines
    printed so far) to a result, normal or an exception, and a new state. *)

From Stdlib Require Import Strings.Ascii Strings.Byte.
From Stdlib Require String.
From Equations Require Import Equations.
From stdpp Require Import base option list strings gmap fin_maps.


(** ** Exceptions and results *)

Inductive exn :=
  | FileNotFoundError
  | NotADirectoryError
  | IsADirectoryError
  | PermissionError
  | OSError
  | YAMLError.

Inductive result (A : Type) :=
  | Ok (a : A)
  | Raise (e : exn).
Arguments Ok {A} a.
Arguments Raise {A} e.

Definition rbind {A B} (r : result A) (k : A → result B) : result B :=
  match r with
  | Ok a => k a
  | Raise e => Raise e
  end.

Notation "x ←r r ; k" := (rbind r (fun x => k))
  (at level 20, r at level 100, k at level 200, only parsing, right associativity).

(** ** Paths ([pathlib.PurePosixPath])  *)

Module PurePath.

(** [str.split('/')] *)
Fixpoint split (s : string) : list string :=
  match s with
  | EmptyString => [EmptyString]
  | String c s' =>
      if Ascii.eqb c "/" then EmptyString :: split s'
      else match split s' with
           | [] => [String c EmptyString]
           | h :: t => String c h :: t
           end
  end.

(** ['/'.join(parts)] *)
Fixpoint join (parts : list string) : string :=
  match parts with
  | [] => EmptyString
  | [x] => x
  | x :: rest => x +:+ "/" +:+ join rest
  end.

(** A parsed path: the root (empty, ["/"] or ["//"]) and the components. *)
Record t := mk { root : string; tail : list string }.

(** [posixpath.splitroot], without the (always empty) drive. *)
Definition splitroot (p : string) : string * string :=
  match p with
  | String "/" (String "/" (String "/" r)) => ("/", String "/" (String "/" r))
  | String "/" (String "/" r) => ("//", r)
  | String "/" r => ("/", r)
  | _ => (EmptyString, p)
  end.

Definition keep_part (x : string) : bool :=
  negb (String.eqb x EmptyString) && negb (String.eqb x ".").

(** [Path(path)]: empty and ["."] components are dropped, [".."] is kept. *)
Definition of_string (p : string) : t :=
  let '(r, rel) := splitroot p in
  mk r (List.filter keep_part (split rel)).

(** [str(path)] *)
Definition str (p : t) : string :=
  match root p, tail p with
  | EmptyString, [] => "."
  | r, tl => r +:+ join tl
  end.

(** The child path built by a directory scan for the entry [name]. *)
Definition child (p : t) (name : string) : t :=
  mk (root p) (tail p ++ [name]).

End PurePath.

Abbreviation Path := PurePath.t.

(** ** The file system *)

(** A regular file carries its bytes and whether the process may open it
    (permissions are all or nothing); a directory lists its entries in the
    order a scan returns them; [Other] stands for anything else that exists
    (a FIFO, a socket, a device). *)
#[warnings="-register-all"]
Inductive node :=
  | File (access : bool) (content : list byte)
  | Dir (entries : list (string * node))
  | Other.

Record world := World { fsroot : node; cwd : list string }.

Fixpoint dir_lookup (name : string) (es : list (string * node)) : option node :=
  match es with
  | [] => None
  | (k, v) :: rest => if String.eqb k name then Some v else dir_lookup name rest
  end.

Fixpoint dir_set (name : string) (new : node) (es : list (string * node))
  : list (string * node) :=
  match es with
  | [] => [(name, new)]
  | (k, v) :: rest =>
      if String.eqb k name then (k, new) :: rest else (k, v) :: dir_set name new rest
  end.

(** The node at an absolute location (the names from the root down). *)
Fixpoint lookup_loc (n : node) (loc : list string) : option node :=
  match loc with
  | [] => Some n
  | c :: cs =>
      match n with
      | Dir es =>
          match dir_lookup c es with
          | Some ch => lookup_loc ch cs
          | None => None
          end
      | _ => None
      end
  end.

Definition is_absolute (s : string) : bool :=
  match s with
  | String "/" _ => true
  | _ => false
  end.

(** The components the kernel walks: empty ones (from doubled or leading
    slashes) are skipped. *)
Definition os_components (s : string) : list string :=
  List.filter (fun x => negb (String.eqb x EmptyString)) (PurePath.split s).

(** Path resolution: every component is looked up in a directory. *)
Fixpoint namei (rt : node) (loc : list string) (comps : list string)
  : option (list string) :=
  match comps with
  | [] => Some loc
  | c :: cs =>
      match lookup_loc rt loc with
      | Some (Dir _) =>
          if String.eqb c "." then namei rt loc cs
          else if String.eqb c ".." then namei rt (removelast loc) cs
          else namei rt (loc ++ [c]) cs
      | _ => None
      end
  end.

Definition os_locate (w : world) (s : string) : option (list string) :=
  match s with
  | EmptyString => None
  | _ => namei (fsroot w) (if is_absolute s then [] else cwd w) (os_components s)
  end.

(** [os.stat]: the node a path string names, if any. *)
Definition os_stat (w : world) (s : string) : option node :=
  loc ← os_locate w s; lookup_loc (fsroot w) loc.

Definition os_path_exists (w : world) (s : string) : bool :=
  bool_decide (is_Some (os_stat w s)).

Definition is_file (w : world) (p : Path) : bool :=
  match os_stat w (PurePath.str p) with
  | Some (File _ _) => true
  | _ => false
  end.

Definition is_dir (w : world) (p : Path) : bool :=
  match os_stat w (PurePath.str p) with
  | Some (Dir _) => true
  | _ => false
  end.

(** [open(path, 'rb')] / [open(path, 'r')] followed by reading: the bytes. *)
Definition os_read (w : world) (s : string) : result (list byte) :=
  match os_locate w s with
  | None => Raise FileNotFoundError
  | Some loc =>
      match lookup_loc (fsroot w) loc with
      | None => Raise FileNotFoundError
      | Some (File true content) => Ok content
      | Some (File false _) => Raise PermissionError
      | Some (Dir _) => Raise IsADirectoryError
      | Some Other => Raise OSError
      end
  end.

(** Writing [content] at a location: an existing file is truncated and
    rewritten, a missing last component is created in its directory. *)
Fixpoint write_loc (n : node) (loc : list string) (content : list byte)
  : result node :=
  match loc with
  | [] =>
      match n with
      | File true _ => Ok (File true content)
      | File false _ => Raise PermissionError
      | Dir _ => Raise IsADirectoryError
      | Other => Raise OSError
      end
  | c :: cs =>
      match n with
      | Dir es =>
          match dir_lookup c es with
          | Some ch =>
              ch' ←r write_loc ch cs content;
              Ok (Dir (dir_set c ch' es))
          | None =>
              match cs with
              | [] => Ok (Dir (es ++ [(c, File true content)]))
              | _ => Raise FileNotFoundError
              end
          end
      | File _ _ | Other => Raise NotADirectoryError
      end
  end.

(** [open(path, 'w')] followed by writing. The last component is split off
    and its directory is resolved like any path. *)
Definition os_write (w : world) (s : string) (content : list byte) : result world :=
  match s with
  | EmptyString => Raise FileNotFoundError
  | _ =>
      let comps := os_components s in
      let start := if is_absolute s then [] else cwd w in
      match last comps with
      | None => Raise IsADirectoryError
      | Some name =>
          if String.eqb name "." || String.eqb name ".." then Raise IsADirectoryError
          else
            match namei (fsroot w) start (removelast comps) with
            | None => Raise FileNotFoundError
            | Some dloc =>
                match lookup_loc (fsroot w) dloc with
                | Some (Dir _) =>
                    rt' ←r write_loc (fsroot w) (dloc ++ [name]) content;
                    Ok (World rt' (cwd w))
                | Some _ => Raise NotADirectoryError
                | None => Raise FileNotFoundError
                end
            end
      end
  end.

(** ** The hasher *)

(** [hashlib]: SHA-256 as a function from the bytes hashed to the lowercase
    hexadecimal digest. *)
Class Hashlib := { sha256_hex : list byte → string }.

(** A hash object is determined by the bytes fed to it so far. *)
Module sha256.
Definition t := list byte.
Definition new : t := [].
Definition update (h : t) (block : list byte) : t := h ++ block.
Definition hexdigest `{Hashlib} (h : t) : string := sha256_hex h.
End sha256.

Definition BLOCK_SIZE : nat := 4096.

Definition inspect {A} (a : A) : {b : A | a = b} := exist _ a eq_refl.

(** The loop [for byte_block in iter(lambda: f.read(4096), b'')]: the open
    file is the list of bytes not yet read. *)
Equations? read_blocks (f : list byte) (h : sha256.t) : sha256.t
  by wf (length f) lt :=
  read_blocks f h with inspect (take BLOCK_SIZE f) => {
    | exist _ [] _ := h;
    | exist _ (b :: bs) _ := read_blocks (drop BLOCK_SIZE f) (sha256.update h (b :: bs)) }.
Proof.
  rewrite length_drop.
  assert (0 < length f) by (destruct f; [by rewrite take_nil in e | simpl; lia]).
  unfold BLOCK_SIZE. lia.
Qed.

Definition calculate_file_hash `{Hashlib} (w : world) (file_path : string)
  : result string :=
  content ←r os_read w file_path;
  Ok (sha256.hexdigest (read_blocks content sha256.new)).

(** ** The snapshot store *)

(** [yaml]: [yaml_dump] serialises a dictionary of strings, [yaml_safe_load]
    parses a document into [None] (an empty document), a dictionary, or
    raises.  Documents that hold anything but a string-to-string mapping are
    outside the type [Dict[str, str]] the program declares. *)
Class Yaml := {
  yaml_dump : gmap string string → string;
  yaml_safe_load : string → result (option (gmap string string))
}.

(** What the program relies on: a dumped dictionary loads back, and the
    empty document loads as [None]. *)
Class YamlLaws `{Yaml} : Prop := {
  safe_load_dump : ∀ m, yaml_safe_load (yaml_dump m) = Ok (Some m);
  safe_load_empty : yaml_safe_load EmptyString = Ok None
}.

Definition HASH_FILE : string := ".file_hashes.yml".

(** [value or {}] on what [yaml.safe_load] returned: [None] and the empty
    dictionary are falsy. *)
Definition or_empty (v : option (gmap string string)) : gmap string string :=
  match v with
  | None => ∅
  | Some m => if decide (m = ∅) then ∅ else m
  end.

Definition load_stored_hashes `{Yaml} (w : world) : result (gmap string string) :=
  if os_path_exists w HASH_FILE then
    bytes ←r os_read w HASH_FILE;
    v ←r yaml_safe_load (String.string_of_list_byte bytes);
    Ok (or_empty v)
  else Ok ∅.

Definition save_hashes `{Yaml} (w : world) (hashes : gmap string string)
  : result world :=
  os_write w HASH_FILE (String.list_byte_of_string (yaml_dump hashes)).

(** ** Commands: state, output and exceptions *)

Record state := State { fs : world; stdout : list string }.

Definition M (A : Type) : Type := state → result A * state.

Definition ret {A} (a : A) : M A := fun s => (Ok a, s).

Definition bind {A B} (m : M A) (k : A → M B) : M B :=
  fun s =>
    match m s with
    | (Ok a, s') => k a s'
    | (Raise e, s') => (Raise e, s')
    end.

Notation "x ←c m ; k" := (bind m (fun x => k))
  (at level 20, m at level 100, k at level 200, only parsing, right associativity).
Notation "m ;c k" := (bind m (fun _ => k))
  (at level 20, k at level 200, only parsing, right associativity).

(** An operation that reads the file system and may raise. *)
Definition reading {A} (f : world → result A) : M A := fun s => (f (fs s), s).

Definition query {A} (f : world → A) : M A := fun s => (Ok (f (fs s)), s).

(** An operation that replaces the file system unless it raises. *)
Definition writing (f : world → result world) : M unit :=
  fun s =>
    match f (fs s) with
    | Ok w' => (Ok tt, State w' (stdout s))
    | Raise e => (Raise e, s)
    end.

(** [click.echo] *)
Definition echo (line : string) : M unit :=
  fun s => (Ok tt, State (fs s) (stdout s ++ [line])).

(** A [for] loop whose body updates a local variable. *)
Fixpoint for_fold {A S} (l : list A) (body : A → S → M S) (acc : S) : M S :=
  match l with
  | [] => ret acc
  | x :: rest => acc' ←c body x acc; for_fold rest body acc'
  end.

Definition for_each {A} (l : list A) (body : A → M unit) : M unit :=
  for_fold l (fun x _ => body x) tt.


(** ** Directory walk ([Path.rglob('*')]) *)

(** Every directory at or below [p], parents first, with its entries. *)
Fixpoint iterate_directories (p : Path) (n : node)
  : list (Path * list (string * node)) :=
  match n with
  | Dir es =>
      (p, es) :: flat_map (fun e => iterate_directories (PurePath.child p e.1) e.2) es
  | _ => []
  end.

(** The pattern ['*'] selects every entry of each of these directories. *)
Definition rglob_node (p : Path) (n : node) : list Path :=
  flat_map (fun d => map (fun e => PurePath.child d.1 e.1) d.2)
           (iterate_directories p n).

Definition rglob (w : world) (p : Path) : list Path :=
  match os_stat w (PurePath.str p) with
  | Some n => rglob_node p n
  | None => []
  end.

(** ** The three commands *)

Section Commands.
Context `{Hashlib, Yaml}.

(** The body of the loop of [init] over the walk. *)
Definition init_visit (file_path : Path) (stored_hashes : gmap string string)
  : M (gmap string string) :=
  is_f ←c query (fun w => is_file w file_path);
  if is_f : bool then
    h ←c reading (fun w => calculate_file_hash w (PurePath.str file_path));
    ret (<[PurePath.str file_path := h]> stored_hashes)
  else ret stored_hashes.

Definition init (path : string) : M unit :=
  let path := PurePath.of_string path in
  stored_hashes ←c
    (is_f ←c query (fun w => is_file w path);
     if is_f : bool then
       h ←c reading (fun w => calculate_file_hash w (PurePath.str path));
       ret (<[PurePath.str path := h]> (∅ : gmap string string))
     else
       is_d ←c query (fun w => is_dir w path);
       if is_d : bool then
         files ←c query (fun w => rglob w path);
         for_fold files init_visit ∅
       else ret ∅);
  writing (fun w => save_hashes w stored_hashes) ;c
  echo "Hashes stored successfully.".

Definition check_single_file (stored_hashes : gmap string string)
    (file_path : Path) : M unit :=
  let str_path := PurePath.str file_path in
  match stored_hashes !! str_path with
  | None => echo ("Status: Unknown (No stored hash for " +:+ str_path +:+ ")")
  | Some stored =>
      current_hash ←c reading (fun w => calculate_file_hash w str_path);
      if String.eqb current_hash stored then echo "Status: Unmodified"
      else echo "Status: Modified (Hash mismatch)"
  end.

Definition newline : string := String (Ascii.ascii_of_nat 10) EmptyString.

(** The body of the loop of [check] over the walk. *)
Definition check_visit (stored_hashes : gmap string string) (file_path : Path)
  : M unit :=
  is_f ←c query (fun w => is_file w file_path);
  if is_f : bool then
    echo (newline +:+ "Checking: " +:+ PurePath.str file_path) ;c
    check_single_file stored_hashes file_path
  else ret tt.

Definition check (path : string) : M unit :=
  let path := PurePath.of_string path in
  stored_hashes ←c reading load_stored_hashes;
  is_f ←c query (fun w => is_file w path);
  if is_f : bool then check_single_file stored_hashes path
  else
    is_d ←c query (fun w => is_dir w path);
    if is_d : bool then
      files ←c query (fun w => rglob w path);
      for_each files (check_visit stored_hashes)
    else ret tt.

Definition update (path : string) : M unit :=
  let path := PurePath.of_string path in
  is_f ←c query (fun w => is_file w path);
  if negb is_f then echo "Error: Please provide a valid file path"
  else
    stored_hashes ←c reading load_stored_hashes;
    h ←c reading (fun w => calculate_file_hash w (PurePath.str path));
    writing (fun w => save_hashes w (<[PurePath.str path := h]> stored_hashes)) ;c
    echo "Hash updated successfully.".

End Commands.

(** ** Notions used to state the properties *)

(** The location holds a directory. *)
Definition is_dir_at (n : node) (loc : list string) : bool :=
  match lookup_loc n loc with
  | Some (Dir _) => true
  | _ => false
  end.

(** Where the store document lives: in the working directory. *)
Definition store_loc (w : world) : list string := cwd w ++ [HASH_FILE].

(** No ['/'] in the string. *)
Fixpoint slash_free (s : string) : bool :=
  match s with
  | EmptyString => true
  | String c r => negb (Ascii.eqb c "/") && slash_free r
  end.

(** A component kept by [Path]: no slash, not empty, not ["."]. *)
Definition clean_part (x : string) : bool :=
  slash_free x && PurePath.keep_part x.

(** A name a directory entry can have. *)
Definition valid_name (x : string) : bool :=
  clean_part x && negb (String.eqb x "..").

(** Every entry below [n] has a valid name. *)
Fixpoint valid_tree (n : node) : bool :=
  match n with
  | Dir es => forallb (fun e => valid_name e.1 && valid_tree e.2) es
  | _ => true
  end.

(** A path whose root is one [Path] produces and whose components are clean. *)
Definition clean_path (p : Path) : Prop :=
  PurePath.root p ∈ [EmptyString; "/"; "//"] ∧
  Forall (fun x => clean_part x = true) (PurePath.tail p).

(** Where the resolution of [p] starts: the root or the working directory. *)
Definition start_of (w : world) (p : Path) : list string :=
  if String.eqb (PurePath.root p) EmptyString then cwd w else [].


Section Reports.
Context `{Hashlib}.

(** What the loop of [init] computes, as a function of the file system. *)
Fixpoint scan (w : world) (files : list Path) (acc : gmap string string)
  : result (gmap string string) :=
  match files with
  | [] => Ok acc
  | q :: rest =>
      if is_file w q then
        h ←r calculate_file_hash w (PurePath.str q);
        scan w rest (<[PurePath.str q := h]> acc)
      else scan w rest acc
  end.

(** The path strings of the regular files among [files]. *)
Definition file_keys (w : world) (files : list Path) : list string :=
  map PurePath.str (filter (fun q => is_file w q = true) files).

(** The keys [init] scans: the path itself when it is a regular file, the
    regular files of the walk when it is a directory. *)
Definition scanned_keys (w : world) (p : Path) : list string :=
  if is_file w p then [PurePath.str p]
  else if is_dir w p then file_keys w (rglob w p)
  else [].

(** The mapping [init] builds before it saves it. *)
Definition init_scan (w : world) (p : Path) : result (gmap string string) :=
  if is_file w p then
    h ←r calculate_file_hash w (PurePath.str p);
    Ok (<[PurePath.str p := h]> ∅)
  else if is_dir w p then scan w (rglob w p) ∅
  else Ok ∅.

(** The line [check] prints before the status of a file of the walk. *)
Definition checking_line (q : Path) : string :=
  newline +:+ "Checking: " +:+ PurePath.str q.

(** The status line [check_single_file] prints, unless hashing raises. *)
Definition status_line (w : world) (stored_hashes : gmap string string) (q : Path)
  : result string :=
  match stored_hashes !! PurePath.str q with
  | None => Ok ("Status: Unknown (No stored hash for " +:+ PurePath.str q +:+ ")")
  | Some stored =>
      h ←r calculate_file_hash w (PurePath.str q);
      Ok (if String.eqb h stored then "Status: Unmodified"
          else "Status: Modified (Hash mismatch)")
  end.

(** The lines the loop of [check] prints, and how it ends. *)
Fixpoint walk_report (w : world) (m : gmap string string) (files : list Path)
  : list string * result unit :=
  match files with
  | [] => ([], Ok tt)
  | q :: rest =>
      if is_file w q then
        match status_line w m q with
        | Ok l =>
            let '(out, r) := walk_report w m rest in
            (checking_line q :: l :: out, r)
        | Raise e => ([checking_line q], Raise e)
        end
      else walk_report w m rest
  end.


End Reports.

(** ** A concrete pair of libraries

    Used to run the commands on concrete file systems: a 16-bit checksum
    in place of SHA-256 and a YAML codec restricted to block mappings of
    double-quoted scalars. *)

Module Concrete.

Definition hex_digit (n : N) : ascii :=
  Ascii.ascii_of_N (if (n <? 10)%N then 48 + n else 87 + n)%N.

Definition checksum (l : list byte) : N :=
  foldl (fun a b => ((a * 31 + Byte.to_N b) mod 65536)%N) 7%N l.

Definition checksum_hex (l : list byte) : string :=
  let c := checksum l in
  String (hex_digit (c / 4096)) (String (hex_digit ((c / 256) mod 16))
    (String (hex_digit ((c / 16) mod 16)) (String (hex_digit (c mod 16)) EmptyString)))%N.

#[export] Instance hashlib : Hashlib := {| sha256_hex := checksum_hex |}.

Definition dq : ascii := Ascii.ascii_of_nat 34.
Definition bs : ascii := Ascii.ascii_of_nat 92.
Definition nl : ascii := Ascii.ascii_of_nat 10.

Fixpoint escape (s : string) : string :=
  match s with
  | EmptyString => EmptyString
  | String c r =>
      if Ascii.eqb c dq then String bs (String dq (escape r))
      else if Ascii.eqb c bs then String bs (String bs (escape r))
      else if Ascii.eqb c nl then String bs (String "n" (escape r))
      else String c (escape r)
  end.

Definition unescape (d : ascii) : ascii := if Ascii.eqb d "n" then nl else d.

Definition quote (s : string) : string :=
  String dq (escape s +:+ String dq EmptyString).

(** The scalar after its opening quote: its value and the rest of the text. *)
Fixpoint parse_body (s : string) : option (string * string) :=
  match s with
  | EmptyString => None
  | String c r =>
      if Ascii.eqb c dq then Some (EmptyString, r)
      else if Ascii.eqb c bs then
        match r with
        | EmptyString => None
        | String d r' =>
            match parse_body r' with
            | Some (x, rest) => Some (String (unescape d) x, rest)
            | None => None
            end
        end
      else
        match parse_body r with
        | Some (x, rest) => Some (String c x, rest)
        | None => None
        end
  end.

Definition parse_quoted (s : string) : option (string * string) :=
  match s with
  | String c r => if Ascii.eqb c dq then parse_body r else None
  | EmptyString => None
  end.

Fixpoint expect (pre s : string) : option string :=
  match pre, s with
  | EmptyString, _ => Some s
  | String a pre', String b s' => if Ascii.eqb a b then expect pre' s' else None
  | String _ _, EmptyString => None
  end.

Definition entry_line (e : string * string) : string :=
  quote e.1 +:+ ": " +:+ quote e.2 +:+ String nl EmptyString.

Fixpoint entry_lines (l : list (string * string)) : string :=
  match l with
  | [] => EmptyString
  | e :: rest => entry_line e +:+ entry_lines rest
  end.

Fixpoint parse_entries (fuel : nat) (s : string) : option (list (string * string)) :=
  match s with
  | EmptyString => Some []
  | _ =>
      match fuel with
      | 0 => None
      | S fuel' =>
          '(k, r1) ← parse_quoted s;
          r2 ← expect ": " r1;
          '(v, r3) ← parse_quoted r2;
          r4 ← expect (String nl EmptyString) r3;
          l ← parse_entries fuel' r4;
          Some ((k, v) :: l)
      end
  end.

Definition empty_flow : string := "{}" +:+ String nl EmptyString.

Definition dump (m : gmap string string) : string :=
  if decide (m = ∅) then empty_flow else entry_lines (map_to_list m).

Definition safe_load (text : string) : result (option (gmap string string)) :=
  if String.eqb text EmptyString then Ok None
  else if String.eqb text empty_flow then Ok (Some ∅)
  else
    match parse_entries (String.length text) text with
    | Some l => Ok (Some (list_to_map l))
    | None => Raise YAMLError
    end.

#[export] Instance yaml : Yaml := {| yaml_dump := dump; yaml_safe_load := safe_load |}.

End Concrete.

(** ** Sample file systems *)

Module Example.
Import Concrete.

Definition bytes (s : string) : list byte := String.list_byte_of_string s.

(** [/home/proj] holds [a.txt], [docs/b.txt], a FIFO [docs/pipe] and a file
    [secret] the process may not open; it is the working directory. *)
Definition project : world :=
  World
    (Dir [("home",
           Dir [("proj",
                 Dir [("a.txt", File true (bytes "alpha"));
                      ("docs", Dir [("b.txt", File true (bytes "beta"));
                                    ("pipe", Other)]);
                      ("secret", File false (bytes "x"))])])])
    ["home"; "proj"].

(** [project] after [init docs]. *)
Definition tracked : world := fs (init "docs" (State project [])).2.

(** [project] with a store that has an entry for [secret]. *)
Definition tracked_secret : world :=
  match save_hashes project {["secret" := "0000"]} with
  | Ok w => w
  | Raise _ => project
  end.

(** [project] with an empty store document, and with one that is not YAML. *)
Definition with_store (content : string) : world :=
  match os_write project HASH_FILE (bytes content) with
  | Ok w => w
  | Raise _ => project
  end.


(** Another file system in which a file with other name has the bytes of
    [a.txt]. *)
Definition elsewhere : world :=
  World (Dir [("copy", File true (bytes "alpha"))]) [].

End Example.


(** ** Notions used to state further properties *)

(** The status line of a file without a stored entry. *)
Definition unknown_line (q : Path) : string :=
  "Status: Unknown (No stored hash for " +:+ PurePath.str q +:+ ")".


Section LaterReports.
Context `{Hashlib}.




End LaterReports.

(** ** Sample file systems at a later time *)

Module Later.
Import Concrete Example.

(** [project] after [init docs/b.txt]. *)
Definition tracked_file : world := fs (init "docs/b.txt" (State project [])).2.

(** [tracked] after [update a.txt]. *)
Definition updated : world := fs (update "a.txt" (State tracked [])).2.

(** The bytes at [path] replaced, or a new file created there. *)
Definition overwrite (w : world) (path content : string) : world :=
  match os_write w path (bytes content) with
  | Ok w' => w'
  | Raise _ => w
  end.

(** [tracked] some time later: [docs/b.txt] has grown by one byte and
    [docs/new.txt] has appeared. *)
Definition edited : world :=
  overwrite (overwrite tracked "docs/b.txt" "beta!") "docs/new.txt" "gamma".

End Later.

(** * Properties *)

(** ** Hasher *)

Lemma BLOCK_SIZE_pos : 0 < BLOCK_SIZE.
Proof. unfold BLOCK_SIZE. lia. Qed.

Lemma take_block_nil (f : list byte) : take BLOCK_SIZE f = [] → f = [].
Proof.
  pose proof BLOCK_SIZE_pos as Hpos. destruct BLOCK_SIZE; [lia |].
  by destruct f.
Qed.

(** Reading block by block feeds the hash object exactly the file's bytes. *)
Lemma read_blocks_app (f : list byte) (h : sha256.t) : read_blocks f h = h ++ f.
Proof.
  funelim (read_blocks f h).
  - rewrite (take_block_nil f e). by rewrite app_nil_r.
  - match goal with IH : read_blocks _ _ = _ ++ _ |- _ => rewrite IH end.
    unfold sha256.update. rewrite <- e, <- app_assoc. by rewrite take_drop.
Qed.

Lemma calculate_file_hash_read `{Hashlib} (w : world) (p : string) :
  calculate_file_hash w p = rbind (os_read w p) (fun c => Ok (sha256_hex c)).
Proof.
  unfold calculate_file_hash. destruct (os_read w p); simpl; [| done].
  by rewrite read_blocks_app.
Qed.

(** ** The concrete codec obeys the laws *)

Lemma string_app_cons (x : ascii) (a b : string) :
  String x a +:+ b = String x (a +:+ b).
Proof. reflexivity. Qed.

Lemma string_app_nil_l (b : string) : EmptyString +:+ b = b.
Proof. reflexivity. Qed.

Lemma string_app_assoc (a b c : string) : (a +:+ b) +:+ c = a +:+ (b +:+ c).
Proof.
  induction a as [| x a IH]; [done |].
  by rewrite !string_app_cons, IH.
Qed.

Lemma string_length_app (a b : string) :
  String.length (a +:+ b) = String.length a + String.length b.
Proof.
  induction a as [| x a IH]; [done |].
  rewrite string_app_cons. simpl. by rewrite IH.
Qed.

Module ConcreteLaws.
Import Concrete.

Lemma parse_body_escape (s rest : string) :
  parse_body (escape s +:+ String dq rest) = Some (s, rest).
Proof.
  induction s as [| c s IH]; cbn [escape].
  - by rewrite string_app_nil_l.
  - destruct (Ascii.eqb_spec c dq) as [-> | Hdq].
    { rewrite !string_app_cons. simpl. by rewrite IH. }
    destruct (Ascii.eqb_spec c bs) as [-> | Hbs].
    { rewrite !string_app_cons. simpl. by rewrite IH. }
    destruct (Ascii.eqb_spec c nl) as [-> | Hnl].
    { rewrite !string_app_cons. simpl. by rewrite IH. }
    rewrite string_app_cons. simpl.
    destruct (Ascii.eqb_spec c dq); [done |].
    destruct (Ascii.eqb_spec c bs); [done |].
    by rewrite IH.
Qed.

Lemma parse_quoted_quote (s rest : string) :
  parse_quoted (quote s +:+ rest) = Some (s, rest).
Proof.
  unfold quote, parse_quoted. rewrite string_app_cons, Ascii.eqb_refl.
  rewrite string_app_assoc, string_app_cons, string_app_nil_l.
  apply parse_body_escape.
Qed.

Lemma entry_line_app (e : string * string) (rest : string) :
  entry_line e +:+ rest
  = quote e.1 +:+ (": " +:+ (quote e.2 +:+ String nl rest)).
Proof. unfold entry_line. by rewrite !string_app_assoc. Qed.

Lemma parse_entries_lines (l : list (string * string)) (fuel : nat) :
  length l ≤ fuel → parse_entries fuel (entry_lines l) = Some l.
Proof.
  revert fuel. induction l as [| [k v] l IH]; intros fuel Hfuel.
  - by destruct fuel.
  - destruct fuel as [| fuel]; [simpl in Hfuel; lia |].
    cbn [entry_lines]. rewrite entry_line_app.
    remember (quote (k, v).1 +:+ ": " +:+ quote (k, v).2 +:+ String nl (entry_lines l)) as text eqn:Htext.
    assert (parse_quoted text = Some (k, ": " +:+ quote v +:+ String nl (entry_lines l))) as Hk
      by (subst text; apply parse_quoted_quote).
    destruct text as [| c text]; [done |].
    cbn [parse_entries]. rewrite Hk. cbn [mbind option_bind].
    rewrite !string_app_cons, string_app_nil_l. cbn [expect].
    rewrite !Ascii.eqb_refl. cbn [mbind option_bind].
    rewrite parse_quoted_quote. cbn [mbind option_bind expect].
    rewrite Ascii.eqb_refl. cbn [mbind option_bind].
    rewrite IH by (simpl in Hfuel; lia). done.
Qed.

Lemma entry_lines_length (l : list (string * string)) :
  length l ≤ String.length (entry_lines l).
Proof.
  induction l as [| e l IH]; simpl; [lia |].
  rewrite string_length_app. unfold entry_line, quote.
  rewrite string_app_cons. simpl. lia.
Qed.

Lemma safe_load_dump (m : gmap string string) : safe_load (dump m) = Ok (Some m).
Proof.
  unfold dump. destruct (decide (m = ∅)) as [-> | Hne]; [done |].
  assert (map_to_list m ≠ []) as Hl by (by rewrite map_to_list_empty_iff).
  unfold safe_load.
  destruct (map_to_list m) as [| e l] eqn:Hm; [done |].
  rewrite <- Hm.
  assert (String.eqb (entry_lines (map_to_list m)) EmptyString = false) as ->
    by (by rewrite Hm).
  assert (String.eqb (entry_lines (map_to_list m)) empty_flow = false) as ->
    by (by rewrite Hm).
  rewrite parse_entries_lines by apply entry_lines_length.
  by rewrite list_to_map_to_list.
Qed.

#[export] Instance yaml_laws : YamlLaws.
Proof. split; [apply safe_load_dump | done]. Qed.

End ConcreteLaws.

(** ** File system *)

Lemma dir_lookup_set_eq (c : string) (v : node) (es : list (string * node)) :
  dir_lookup c (dir_set c v es) = Some v.
Proof.
  induction es as [| [k x] es IH]; simpl.
  - by rewrite String.eqb_refl.
  - destruct (String.eqb_spec k c) as [-> | Hne]; simpl.
    + by rewrite String.eqb_refl.
    + by destruct (String.eqb_spec k c).
Qed.

Lemma dir_lookup_set_ne (c k : string) (v : node) (es : list (string * node)) :
  k ≠ c → dir_lookup k (dir_set c v es) = dir_lookup k es.
Proof.
  intros Hne. induction es as [| [k' x] es IH]; simpl.
  - by destruct (String.eqb_spec c k) as [-> | _].
  - destruct (String.eqb_spec k' c) as [-> | Hkc]; simpl.
    + by destruct (String.eqb_spec c k) as [-> | _].
    + by rewrite IH.
Qed.

Lemma dir_lookup_snoc (c k : string) (v : node) (es : list (string * node)) :
  dir_lookup c es = None →
  dir_lookup k (es ++ [(c, v)]) = if String.eqb c k then Some v else dir_lookup k es.
Proof.
  intros Hc. induction es as [| [k' x] es IH]; simpl in *; [done |].
  destruct (String.eqb_spec k' c) as [-> | Hkc]; [done |].
  destruct (String.eqb_spec k' k) as [-> | Hkk].
  - by destruct (String.eqb_spec c k) as [-> | _].
  - by apply IH.
Qed.

Lemma lookup_loc_app (n : node) (l1 l2 : list string) :
  lookup_loc n (l1 ++ l2) = lookup_loc n l1 ≫= fun m => lookup_loc m l2.
Proof.
  revert n. induction l1 as [| c l1 IH]; intros n; simpl; [done |].
  destruct n as [| es |]; try done.
  destruct (dir_lookup c es); [apply IH | done].
Qed.

(** After a successful write the location holds the new bytes. *)
Lemma write_loc_lookup (n n' : node) (loc : list string) (content : list byte) :
  write_loc n loc content = Ok n' → lookup_loc n' loc = Some (File true content).
Proof.
  revert n n'. induction loc as [| c cs IH]; intros n n' Hw; simpl in *.
  - destruct n as [[] ? | |]; by simplify_eq.
  - destruct n as [| es |]; try done.
    destruct (dir_lookup c es) as [ch |] eqn:Hc.
    + destruct (write_loc ch cs content) as [ch' |] eqn:Hch; simplify_eq/=.
      rewrite dir_lookup_set_eq. by apply (IH ch).
    + destruct cs; simplify_eq/=.
      rewrite dir_lookup_snoc by done. by rewrite String.eqb_refl.
Qed.

(** A write changes nothing at a location that is not on the way to it. *)
Lemma write_loc_frame (n n' : node) (loc l : list string) (content : list byte) :
  write_loc n loc content = Ok n' → ¬ l `prefix_of` loc →
  lookup_loc n' l = lookup_loc n l.
Proof.
  revert n n' l. induction loc as [| c cs IH]; intros n n' l Hw Hl; simpl in *.
  - destruct l as [| k l]; [destruct Hl; apply prefix_nil |].
    destruct n as [[] ? | |]; by simplify_eq.
  - destruct l as [| k l]; [destruct Hl; apply prefix_nil |].
    destruct n as [| es |]; try done.
    destruct (dir_lookup c es) as [ch |] eqn:Hc.
    + destruct (write_loc ch cs content) as [ch' |] eqn:Hch; simplify_eq/=.
      destruct (decide (k = c)) as [-> | Hkc].
      * rewrite dir_lookup_set_eq, Hc. apply (IH ch); [done |].
        intros Hp. apply Hl. by apply prefix_cons.
      * by rewrite dir_lookup_set_ne.
    + destruct cs; simplify_eq/=.
      rewrite dir_lookup_snoc by done.
      destruct (String.eqb_spec c k) as [-> | Hck]; [| done].
      rewrite Hc. destruct l as [| k' l]; [| done].
      destruct Hl. done.
Qed.

(** A write neither creates nor removes a directory. *)
Lemma write_loc_is_dir_at (n n' : node) (loc l : list string) (content : list byte) :
  write_loc n loc content = Ok n' → is_dir_at n' l = is_dir_at n l.
Proof.
  unfold is_dir_at.
  revert n n' l. induction loc as [| c cs IH]; intros n n' l Hw; simpl in *.
  - destruct n as [[] ? | |]; simplify_eq. by destruct l.
  - destruct n as [| es |]; try done.
    destruct (dir_lookup c es) as [ch |] eqn:Hc.
    + destruct (write_loc ch cs content) as [ch' |] eqn:Hch; simplify_eq/=.
      destruct l as [| k l]; [done |]. simpl.
      destruct (decide (k = c)) as [-> | Hkc].
      * rewrite dir_lookup_set_eq, Hc. by apply (IH ch).
      * by rewrite dir_lookup_set_ne.
    + destruct cs; simplify_eq/=.
      destruct l as [| k l]; [done |]. simpl.
      rewrite dir_lookup_snoc by done.
      destruct (String.eqb_spec c k) as [-> | Hck]; [| done].
      rewrite Hc. by destruct l.
Qed.

Lemma namei_is_dir_at (n n' : node) (loc : list string) (comps : list string) :
  (∀ l, is_dir_at n' l = is_dir_at n l) → namei n' loc comps = namei n loc comps.
Proof.
  intros Hd. revert loc. induction comps as [| c cs IH]; intros loc; simpl; [done |].
  specialize (Hd loc). unfold is_dir_at in Hd.
  destruct (lookup_loc n' loc) as [[] |], (lookup_loc n loc) as [[] |];
    try done; repeat case_match; apply IH.
Qed.

(** ** Snapshot store *)

Lemma os_locate_store (w : world) :
  os_locate w HASH_FILE
  = if is_dir_at (fsroot w) (cwd w) then Some (store_loc w) else None.
Proof.
  unfold os_locate, is_dir_at, store_loc. simpl.
  change (os_components HASH_FILE) with [HASH_FILE]. simpl.
  by destruct (lookup_loc (fsroot w) (cwd w)) as [[] |].
Qed.

Lemma os_write_store (w w' : world) (content : list byte) :
  os_write w HASH_FILE content = Ok w' →
  is_dir_at (fsroot w) (cwd w) = true ∧
  ∃ rt', write_loc (fsroot w) (store_loc w) content = Ok rt' ∧ w' = World rt' (cwd w).
Proof.
  unfold os_write, is_dir_at, store_loc. simpl.
  change (os_components HASH_FILE) with [HASH_FILE]. simpl.
  destruct (lookup_loc (fsroot w) (cwd w)) as [[] |]; try done.
  destruct (write_loc _ _ _) as [rt' |]; simpl; [| done].
  intros [= <-]. eauto.
Qed.

(** What was written to the store document can be read back. *)
Lemma os_read_write_store (w w' : world) (content : list byte) :
  os_write w HASH_FILE content = Ok w' →
  os_path_exists w' HASH_FILE = true ∧ os_read w' HASH_FILE = Ok content.
Proof.
  intros (Hd & rt' & Hw & ->)%os_write_store.
  pose proof (write_loc_lookup _ _ _ _ Hw) as Hl.
  unfold os_path_exists, os_stat, os_read. rewrite os_locate_store. simpl.
  rewrite (write_loc_is_dir_at _ _ _ _ _ Hw), Hd. unfold store_loc in *. simpl.
  rewrite Hl. split; [| done]. by apply bool_decide_eq_true.
Qed.

Lemma os_read_exists (w : world) (s : string) (content : list byte) :
  os_read w s = Ok content → os_path_exists w s = true.
Proof.
  unfold os_read, os_path_exists, os_stat. intros Hr.
  destruct (os_locate w s) as [loc |]; [simpl | done].
  destruct (lookup_loc (fsroot w) loc); [| done].
  by apply bool_decide_eq_true.
Qed.

Lemma or_empty_Some (m : gmap string string) : or_empty (Some m) = m.
Proof. unfold or_empty. by case_decide. Qed.

Section Store.
Context `{Yaml}.

(** What [save_hashes] wrote is what [load_stored_hashes] returns. *)
Lemma load_after_save `{!YamlLaws} (w w' : world) (m : gmap string string) :
  save_hashes w m = Ok w' → load_stored_hashes w' = Ok m.
Proof.
  unfold save_hashes, load_stored_hashes.
  intros [Hex Hrd]%os_read_write_store. rewrite Hex, Hrd. cbn [rbind].
  rewrite String.string_of_list_byte_of_string, safe_load_dump. cbn [rbind].
  by rewrite or_empty_Some.
Qed.

(** C4: saving a mapping and loading the document again gives the mapping
    back; in particular saving what was just loaded changes nothing for the
    next load. *)
Theorem save_load_roundtrip `{!YamlLaws} (w w' : world) (m : gmap string string) :
  save_hashes w m = Ok w' →
  load_stored_hashes w' = Ok m ∧
  (load_stored_hashes w = Ok m → load_stored_hashes w' = load_stored_hashes w).
Proof.
  intros Hsave%load_after_save. split; [done |]. intros ->. done.
Qed.

(** C5: an absent document loads as the empty mapping, an empty document
    too, and a document the parser rejects makes the load raise. *)
Theorem load_absent_empty_malformed `{!YamlLaws} (w : world) :
  (os_path_exists w HASH_FILE = false → load_stored_hashes w = Ok ∅) ∧
  (os_read w HASH_FILE = Ok [] → load_stored_hashes w = Ok ∅) ∧
  (∀ bytes e,
     os_read w HASH_FILE = Ok bytes →
     yaml_safe_load (String.string_of_list_byte bytes) = Raise e →
     load_stored_hashes w = Raise e).
Proof.
  unfold load_stored_hashes. split_and!.
  - by intros ->.
  - intros Hr. rewrite (os_read_exists _ _ _ Hr), Hr. simpl.
    change (String.string_of_list_byte []) with EmptyString.
    by rewrite safe_load_empty.
  - intros bytes e Hr He. rewrite (os_read_exists _ _ _ Hr), Hr. simpl.
    by rewrite He.
Qed.

End Store.

(** C7: the digest of a file is the SHA-256 of its bytes, whatever the file
    system and the path; two files with the same bytes have the same digest. *)
Theorem calculate_file_hash_deterministic `{Hashlib}
    (w1 w2 : world) (p1 p2 : string) (content : list byte) :
  os_read w1 p1 = Ok content → os_read w2 p2 = Ok content →
  calculate_file_hash w1 p1 = Ok (sha256_hex content) ∧
  calculate_file_hash w2 p2 = calculate_file_hash w1 p1.
Proof.
  intros H1 H2. rewrite !calculate_file_hash_read, H1, H2. done.
Qed.

(** ** Path strings and their resolution *)

Lemma split_not_nil (s : string) : PurePath.split s ≠ [].
Proof.
  induction s as [| c s IH]; simpl; [done |].
  destruct (Ascii.eqb c "/"); [done |]. by destruct (PurePath.split s).
Qed.

Lemma split_slash_free (a : string) : slash_free a = true → PurePath.split a = [a].
Proof.
  induction a as [| c a IH]; simpl; [done |].
  intros [Hc Ha]%andb_true_iff. destruct (Ascii.eqb c "/"); [done |].
  by rewrite IH.
Qed.

Lemma split_app_slash (a b : string) :
  slash_free a = true →
  PurePath.split (a +:+ String "/" b) = a :: PurePath.split b.
Proof.
  induction a as [| c a IH]; [done |].
  rewrite string_app_cons. simpl.
  intros [Hc Ha]%andb_true_iff. destruct (Ascii.eqb c "/"); [done |].
  by rewrite IH.
Qed.

Lemma split_join (l : list string) :
  l ≠ [] → Forall (fun x => slash_free x = true) l →
  PurePath.split (PurePath.join l) = l.
Proof.
  induction l as [| x l IH]; [done |]. intros _ Hl.
  apply Forall_cons in Hl as [Hx Hl].
  destruct l as [| y l]; [by apply split_slash_free |].
  cbn [PurePath.join]. rewrite string_app_cons, string_app_nil_l.
  rewrite split_app_slash by done. f_equal. by apply IH.
Qed.

Lemma split_parts_slash_free (s : string) :
  Forall (fun x => slash_free x = true) (PurePath.split s).
Proof.
  induction s as [| c s IH]; simpl; [by repeat constructor |].
  destruct (Ascii.eqb c "/") eqn:Hc; [by constructor |].
  destruct (PurePath.split s) as [| h t]; [by repeat constructor; simpl; rewrite Hc |].
  apply Forall_cons in IH as [Hh Ht]. constructor; [| done].
  simpl. by rewrite Hc.
Qed.

Lemma of_string_root (s : string) :
  PurePath.root (PurePath.of_string s) ∈ [EmptyString; "/"; "//"].
Proof.
  unfold PurePath.of_string.
  destruct (PurePath.splitroot s) as [r rel] eqn:Hs. simpl.
  unfold PurePath.splitroot in Hs. repeat case_match; simplify_eq; set_solver.
Qed.

Lemma of_string_tail_clean (s : string) :
  Forall (fun x => clean_part x = true) (PurePath.tail (PurePath.of_string s)).
Proof.
  unfold PurePath.of_string. destruct (PurePath.splitroot s) as [r rel]. simpl.
  apply Forall_forall. intros x [Hx Hk]%list_elem_of_In%filter_In.
  unfold clean_part. rewrite Hk, andb_true_r.
  pose proof (split_parts_slash_free rel) as Hall.
  rewrite Forall_forall in Hall. by apply Hall, list_elem_of_In.
Qed.

Lemma of_string_clean (s : string) : clean_path (PurePath.of_string s).
Proof. split; [apply of_string_root | apply of_string_tail_clean]. Qed.

Lemma filter_nonempty_clean (l : list string) :
  Forall (fun x => clean_part x = true) l →
  List.filter (fun x => negb (String.eqb x EmptyString)) l = l.
Proof.
  induction 1 as [| x l Hx Hl IH]; simpl; [done |].
  unfold clean_part, PurePath.keep_part in Hx.
  apply andb_true_iff in Hx as [_ [Hx _]%andb_true_iff].
  by rewrite Hx, IH.
Qed.

Lemma clean_parts_slash_free (l : list string) :
  Forall (fun x => clean_part x = true) l → Forall (fun x => slash_free x = true) l.
Proof.
  intros Hl. eapply Forall_impl; [exact Hl |].
  intros x Hx. unfold clean_part in Hx.
  by apply andb_true_iff in Hx as [? _].
Qed.

(** The kernel sees the components [Path] kept. *)
Lemma os_components_str (p : Path) :
  clean_path p → PurePath.tail p ≠ [] →
  os_components (PurePath.str p) = PurePath.tail p ∧
  is_absolute (PurePath.str p) = negb (String.eqb (PurePath.root p) EmptyString) ∧
  PurePath.str p ≠ EmptyString.
Proof.
  intros [Hroot Hclean] Hne. destruct p as [r tl]. simpl in *.
  pose proof (split_join tl Hne (clean_parts_slash_free _ Hclean)) as Hsplit.
  pose proof (filter_nonempty_clean tl Hclean) as Hfilter.
  assert (PurePath.join tl ≠ EmptyString) as Hjoin.
  { intros Hj. rewrite Hj in Hsplit. simpl in Hsplit.
    destruct tl as [| x [| y tl]]; simplify_eq. }
  destruct tl as [| x tl]; [done |].
  assert (PurePath.str (PurePath.mk r (x :: tl)) = r +:+ PurePath.join (x :: tl))
    as -> by (by destruct r).
  unfold os_components.
  set (j := PurePath.join (x :: tl)) in *.
  repeat (apply elem_of_cons in Hroot as [-> | Hroot]);
    [| | | by apply elem_of_nil in Hroot].
  - rewrite string_app_nil_l. rewrite Hsplit, Hfilter. simpl.
    split_and!; [done | | done].
    unfold is_absolute. clearbody j. destruct j as [| c j']; [done |].
    destruct (Ascii.eqb_spec c "/") as [-> | Hc]; [| by repeat case_match].
    exfalso. simpl in Hsplit.
    injection Hsplit as <- _. by apply Forall_cons in Hclean as [? _].
  - rewrite string_app_cons, string_app_nil_l. simpl.
    by rewrite Hsplit, Hfilter.
  - rewrite !string_app_cons, string_app_nil_l. simpl.
    by rewrite Hsplit, Hfilter.
Qed.

Lemma namei_app (rt : node) (loc : list string) (a b : list string) :
  namei rt loc (a ++ b) = namei rt loc a ≫= fun l => namei rt l b.
Proof.
  revert loc. induction a as [| c a IH]; intros loc; simpl; [done |].
  destruct (lookup_loc rt loc) as [[] |]; try done.
  repeat case_match; apply IH.
Qed.

(** Valid names only ever descend. *)
Lemma namei_valid_names (rt : node) (d loc : list string) (names : list string) :
  Forall (fun x => valid_name x = true) names →
  namei rt d names = Some loc → loc = d ++ names.
Proof.
  intros Hv. revert d. induction Hv as [| c cs Hc Hcs IH]; intros d; simpl.
  - intros [= <-]. by rewrite app_nil_r.
  - destruct (lookup_loc rt d) as [[] |]; try done.
    unfold valid_name, clean_part, PurePath.keep_part in Hc.
    apply andb_true_iff in Hc as [[_ [_ Hdot]%andb_true_iff]%andb_true_iff Hdd].
    apply negb_true_iff in Hdot, Hdd. rewrite Hdot, Hdd.
    intros ->%IH. by rewrite <- app_assoc.
Qed.

Lemma os_locate_str (w : world) (p : Path) (d : list string) :
  clean_path p → os_locate w (PurePath.str p) = Some d →
  namei (fsroot w) (start_of w p) (PurePath.tail p) = Some d.
Proof.
  intros Hp. destruct (decide (PurePath.tail p = [])) as [Htl | Htl].
  - destruct p as [r tl]. simpl in Htl. subst tl. destruct Hp as [Hroot _].
    unfold start_of. simpl in *.
    repeat (apply elem_of_cons in Hroot as [-> | Hroot]);
      [| | | by apply elem_of_nil in Hroot]; unfold os_locate; simpl; try done.
    change (os_components ".") with ["."]. simpl.
    by destruct (lookup_loc (fsroot w) (cwd w)) as [[] |].
  - destruct (os_components_str p Hp Htl) as (Hc & Ha & Hne).
    unfold os_locate, start_of. rewrite Hc, Ha.
    destruct (PurePath.str p); [done |].
    by destruct (String.eqb (PurePath.root p) EmptyString).
Qed.

(** A path below [p] resolves below the location of [p]. *)
Lemma os_locate_below (w : world) (p : Path) (names d loc : list string) :
  clean_path p → names ≠ [] → Forall (fun x => valid_name x = true) names →
  os_locate w (PurePath.str p) = Some d →
  os_locate w (PurePath.str (PurePath.mk (PurePath.root p) (PurePath.tail p ++ names)))
    = Some loc →
  loc = d ++ names.
Proof.
  intros Hp Hne Hv Hd Hloc.
  assert (clean_path (PurePath.mk (PurePath.root p) (PurePath.tail p ++ names))) as Hq.
  { destruct Hp as [Hr Hc]. split; [done |]. simpl.
    apply Forall_app. split; [done |].
    eapply Forall_impl; [exact Hv |]. intros x Hx. unfold valid_name in Hx.
    by apply andb_true_iff in Hx as [? _]. }
  apply os_locate_str in Hd; [| done]. apply os_locate_str in Hloc; [| done].
  unfold start_of in *. simpl in Hloc. rewrite namei_app, Hd in Hloc. simpl in Hloc.
  by apply namei_valid_names in Hloc.
Qed.

(** *** The shape of the walk *)

Lemma node_nested_ind (Q : node → Prop) :
  (∀ a c, Q (File a c)) →
  (∀ es, Forall (fun e => Q e.2) es → Q (Dir es)) →
  Q Other →
  ∀ n, Q n.
Proof.
  intros Hfile Hdir Hother.
  fix IH 1. intros [a c | es |]; [apply Hfile | | apply Hother].
  apply Hdir. induction es as [| [k ch] es IHes]; constructor; [apply IH | apply IHes].
Qed.

Lemma iterate_directories_below (n : node) (p d : Path) (es : list (string * node)) :
  valid_tree n = true → (d, es) ∈ iterate_directories p n →
  ∃ names, Forall (fun x => valid_name x = true) names ∧
           d = PurePath.mk (PurePath.root p) (PurePath.tail p ++ names) ∧
           valid_tree (Dir es) = true.
Proof.
  revert p. induction n as [| es0 IH |] using node_nested_ind; intros p Hv Hin;
    simpl in Hin; try by apply elem_of_nil in Hin.
  apply elem_of_cons in Hin as [[= -> ->] | Hin].
  - exists []. rewrite app_nil_r. by destruct p.
  - apply list_elem_of_In, in_flat_map in Hin as ([k ch] & Hk & Hin).
    apply list_elem_of_In in Hk, Hin. simpl in Hin.
    rewrite Forall_forall in IH.
    simpl in Hv. rewrite forallb_forall in Hv.
    specialize (Hv _ (proj1 (list_elem_of_In _ _) Hk)). simpl in Hv.
    apply andb_true_iff in Hv as [Hname Hch].
    destruct (IH _ Hk (PurePath.child p k) Hch Hin) as (names & Hnames & -> & Hes).
    exists (k :: names). split_and!; [by constructor | | done].
    simpl. by rewrite <- app_assoc.
Qed.

Lemma rglob_node_below (n : node) (p q : Path) :
  valid_tree n = true → q ∈ rglob_node p n →
  ∃ names, names ≠ [] ∧ Forall (fun x => valid_name x = true) names ∧
           q = PurePath.mk (PurePath.root p) (PurePath.tail p ++ names).
Proof.
  intros Hv Hq. unfold rglob_node in Hq.
  apply list_elem_of_In, in_flat_map in Hq as ([d es] & Hd & Hq).
  apply list_elem_of_In in Hd. simpl in Hq.
  apply in_map_iff in Hq as ([k ch] & <- & Hk).
  destruct (iterate_directories_below n p d es Hv Hd) as (names & Hnames & -> & Hes).
  simpl in Hes. rewrite forallb_forall in Hes.
  specialize (Hes _ Hk). simpl in Hes. apply andb_true_iff in Hes as [Hname _].
  exists (names ++ [k]). split_and!.
  - by destruct names.
  - apply Forall_app. split; [done | by constructor].
  - unfold PurePath.child. simpl. by rewrite <- app_assoc.
Qed.

Lemma dir_lookup_In (c : string) (es : list (string * node)) (ch : node) :
  dir_lookup c es = Some ch → In (c, ch) es.
Proof.
  induction es as [| [k v] es IH]; simpl; [done |].
  destruct (String.eqb_spec k c) as [-> | Hne]; [intros [= ->]; by left |].
  intros Hc. right. by apply IH.
Qed.

Lemma valid_tree_lookup (n m : node) (loc : list string) :
  valid_tree n = true → lookup_loc n loc = Some m → valid_tree m = true.
Proof.
  revert n. induction loc as [| c cs IH]; intros n Hv; simpl.
  - by intros [= <-].
  - destruct n as [| es |]; try done.
    destruct (dir_lookup c es) as [ch |] eqn:Hc; [| done].
    apply IH. simpl in Hv. rewrite forallb_forall in Hv.
    specialize (Hv _ (dir_lookup_In _ _ _ Hc)). simpl in Hv.
    by apply andb_true_iff in Hv as [_ ?].
Qed.

(** *** The walk finds every file below the directory *)

Lemma os_locate_str_tail (w : world) (q : Path) :
  clean_path q → PurePath.tail q ≠ [] →
  os_locate w (PurePath.str q) = namei (fsroot w) (start_of w q) (PurePath.tail q).
Proof.
  intros Hq Htl. destruct (os_components_str q Hq Htl) as (Hc & Ha & Hne).
  unfold os_locate, start_of. rewrite Hc, Ha.
  destruct (PurePath.str q); [done |].
  by destruct (String.eqb (PurePath.root q) EmptyString).
Qed.

(** Valid names that lead to a node resolve to its location. *)
Lemma namei_descend (rt n : node) (d names : list string) :
  Forall (fun x => valid_name x = true) names →
  lookup_loc rt (d ++ names) = Some n →
  namei rt d names = Some (d ++ names).
Proof.
  intros Hv. revert d. induction Hv as [| c cs Hc Hcs IH]; intros d Hl; simpl.
  - by rewrite app_nil_r.
  - rewrite lookup_loc_app in Hl.
    destruct (lookup_loc rt d) as [[| es |] |] eqn:Hd; try done.
    unfold valid_name, clean_part, PurePath.keep_part in Hc.
    apply andb_true_iff in Hc as [[_ [_ Hdot]%andb_true_iff]%andb_true_iff Hdd].
    apply negb_true_iff in Hdot, Hdd. rewrite Hdot, Hdd.
    rewrite (IH (d ++ [c])); [by rewrite <- app_assoc |].
    rewrite <- app_assoc. simpl. by rewrite lookup_loc_app, Hd.
Qed.

Lemma os_stat_below (w : world) (p : Path) (d names : list string) (n : node) :
  clean_path p → names ≠ [] → Forall (fun x => valid_name x = true) names →
  os_locate w (PurePath.str p) = Some d →
  lookup_loc (fsroot w) (d ++ names) = Some n →
  os_stat w (PurePath.str (PurePath.mk (PurePath.root p) (PurePath.tail p ++ names)))
  = Some n.
Proof.
  intros Hp Hne Hv Hd Hl.
  assert (clean_path (PurePath.mk (PurePath.root p) (PurePath.tail p ++ names))) as Hq.
  { destruct Hp as [Hr Hc]. split; [done |]. simpl.
    apply Forall_app. split; [done |].
    eapply Forall_impl; [exact Hv |]. intros x Hx. unfold valid_name in Hx.
    by apply andb_true_iff in Hx as [? _]. }
  unfold os_stat. rewrite os_locate_str_tail by (done || by destruct (PurePath.tail p), names).
  apply os_locate_str in Hd; [| done].
  unfold start_of in *. simpl. rewrite namei_app, Hd. simpl.
  by rewrite (namei_descend _ n).
Qed.

Lemma iterate_directories_child (n ch : node) (p : Path) (c : string)
    (es : list (string * node)) (x : Path * list (string * node)) :
  n = Dir es → In (c, ch) es →
  x ∈ iterate_directories (PurePath.child p c) ch → x ∈ iterate_directories p n.
Proof.
  intros -> Hin Hx. simpl. right.
  apply list_elem_of_In, in_flat_map. exists (c, ch). split; [done |].
  by apply list_elem_of_In.
Qed.

Lemma rglob_node_complete (n ch : node) (p : Path) (names : list string) :
  names ≠ [] → lookup_loc n names = Some ch →
  PurePath.mk (PurePath.root p) (PurePath.tail p ++ names) ∈ rglob_node p n.
Proof.
  revert n p. induction names as [| c cs IH]; intros n p Hne Hl; [done |].
  simpl in Hl. destruct n as [| es |]; try done.
  destruct (dir_lookup c es) as [n' |] eqn:Hc; [| done].
  apply dir_lookup_In in Hc.
  destruct cs as [| c' cs].
  - unfold rglob_node. apply list_elem_of_In, in_flat_map.
    exists (p, es). split; [by left |]. simpl.
    apply in_map_iff. by exists (c, n').
  - specialize (IH n' (PurePath.child p c) ltac:(done) Hl).
    unfold PurePath.child in IH. simpl in IH. rewrite <- app_assoc in IH. simpl in IH.
    unfold rglob_node in *.
    apply list_elem_of_In, in_flat_map in IH as (x & Hx & Hq).
    apply list_elem_of_In, in_flat_map. exists x. split; [| done].
    apply list_elem_of_In.
    eapply iterate_directories_child; [done | exact Hc |].
    by apply list_elem_of_In.
Qed.

Lemma lookup_loc_valid_names (n ch : node) (names : list string) :
  valid_tree n = true → lookup_loc n names = Some ch →
  Forall (fun x => valid_name x = true) names.
Proof.
  revert n. induction names as [| c cs IH]; intros n Hv Hl; [constructor |].
  simpl in Hl. destruct n as [| es |]; try done.
  destruct (dir_lookup c es) as [n' |] eqn:Hc; [| done].
  apply dir_lookup_In in Hc. simpl in Hv. rewrite forallb_forall in Hv.
  specialize (Hv _ Hc). simpl in Hv. apply andb_true_iff in Hv as [Hname Hn'].
  constructor; [done | by eapply IH].
Qed.

Lemma os_stat_read (w : world) (k : string) (a : bool) (c : list byte) :
  os_stat w k = Some (File a c) →
  os_read w k = if a then Ok c else Raise PermissionError.
Proof.
  unfold os_stat, os_read. destruct (os_locate w k) as [loc |]; [simpl | done].
  by intros ->.
Qed.



Lemma lookup_loc_prefix_dir (n x : node) (l1 l2 : list string) :
  l2 ≠ [] → lookup_loc n (l1 ++ l2) = Some x → is_dir_at n l1 = true.
Proof.
  intros Hne. rewrite lookup_loc_app. unfold is_dir_at.
  destruct (lookup_loc n l1) as [[| es |] |]; try done; by destruct l2.
Qed.

(** *** A write to the store and the rest of the file system *)

Section AfterWrite.
Variables (w : world) (loc : list string) (content : list byte) (rt' : node).
Hypothesis Hwrite : write_loc (fsroot w) loc content = Ok rt'.

Lemma os_locate_after_write (s : string) :
  os_locate (World rt' (cwd w)) s = os_locate w s.
Proof.
  unfold os_locate. simpl. destruct s; [done |].
  apply namei_is_dir_at. intros l. by eapply write_loc_is_dir_at.
Qed.

Lemma os_stat_after_write (s : string) :
  (∀ l, os_locate w s = Some l → ¬ l `prefix_of` loc) →
  os_stat (World rt' (cwd w)) s = os_stat w s.
Proof.
  intros Hl. unfold os_stat. rewrite os_locate_after_write.
  destruct (os_locate w s) as [l |]; [simpl | done].
  eapply write_loc_frame; [done | by apply Hl].
Qed.


End AfterWrite.



(** ** Commands *)

Section CommandProperties.
Context `{Hashlib, Yaml}.



(** C3: [update] on a regular file sets the entry of its path string to the
    digest of its bytes and keeps every other entry of the stored mapping;
    when it raises instead, nothing at all has changed. *)
Theorem update_changes_one_entry `{!YamlLaws} (path : string) (s s' : state) (r : result unit) :
  is_file (fs s) (PurePath.of_string path) = true →
  update path s = (r, s') →
  match r with
  | Ok _ =>
      ∃ m content,
        load_stored_hashes (fs s) = Ok m ∧
        os_read (fs s) (PurePath.str (PurePath.of_string path)) = Ok content ∧
        load_stored_hashes (fs s')
          = Ok (<[PurePath.str (PurePath.of_string path) := sha256_hex content]> m) ∧
        ∀ m' k, load_stored_hashes (fs s') = Ok m' →
                k ≠ PurePath.str (PurePath.of_string path) → m' !! k = m !! k
  | Raise _ => s' = s
  end.
Proof.
  intros Hf. unfold update, bind, query, reading, writing, echo.
  rewrite Hf. simpl.
  destruct (load_stored_hashes (fs s)) as [m |] eqn:Hload; [| by intros [= <- <-]].
  rewrite calculate_file_hash_read.
  destruct (os_read (fs s) _) as [content |] eqn:Hread; simpl; [| by intros [= <- <-]].
  destruct (save_hashes (fs s) _) as [w' |] eqn:Hsave; [| by intros [= <- <-]].
  intros [= <- <-]. simpl.
  apply load_after_save in Hsave.
  exists m, content. split_and!; try done.
  intros m' k Hm' Hk. rewrite Hsave in Hm'. injection Hm' as <-.
  by rewrite lookup_insert_ne.
Qed.


Lemma is_dir_not_file (w : world) (p : Path) : is_dir w p = true → is_file w p = false.
Proof.
  unfold is_dir, is_file. by destruct (os_stat w (PurePath.str p)) as [[] |].
Qed.

(** *** The walk of [init] *)

Lemma for_fold_init_visit (files : list Path) (acc : gmap string string) (s : state) :
  for_fold files init_visit acc s = (scan (fs s) files acc, s).
Proof.
  revert acc. induction files as [| q rest IH]; intros acc; simpl; [done |].
  unfold bind at 1. unfold init_visit at 1. unfold bind, query, reading, ret.
  destruct (is_file (fs s) q); [| apply IH].
  destruct (calculate_file_hash (fs s) (PurePath.str q)); simpl; [apply IH | done].
Qed.

Lemma scan_app (w : world) (l1 l2 : list Path) (acc : gmap string string) :
  scan w (l1 ++ l2) acc = rbind (scan w l1 acc) (scan w l2).
Proof.
  revert acc. induction l1 as [| q l1 IH]; intros acc; simpl; [done |].
  destruct (is_file w q); [| apply IH].
  destruct (calculate_file_hash w (PurePath.str q)); simpl; [apply IH | done].
Qed.

Lemma scan_readable (w : world) (files : list Path) (acc : gmap string string) :
  (∀ q, q ∈ files → is_file w q = true →
        ∃ h, calculate_file_hash w (PurePath.str q) = Ok h) →
  ∃ m, scan w files acc = Ok m.
Proof.
  revert acc. induction files as [| q rest IH]; intros acc Hr; simpl; [eauto |].
  assert (∀ q', q' ∈ rest → is_file w q' = true →
                ∃ h, calculate_file_hash w (PurePath.str q') = Ok h) as Hrest
    by (intros q' Hq'; apply Hr; by right).
  destruct (is_file w q) eqn:Hf; [| by apply IH].
  destruct (Hr q) as [h ->]; [by left | done |]. simpl. by apply IH.
Qed.

Lemma file_keys_cons (w : world) (q : Path) (rest : list Path) :
  file_keys w (q :: rest)
  = if is_file w q then PurePath.str q :: file_keys w rest else file_keys w rest.
Proof.
  unfold file_keys. rewrite filter_cons.
  destruct (is_file w q); by repeat case_decide.
Qed.

Lemma scan_lookup (w : world) (files : list Path) (acc m : gmap string string)
    (k : string) :
  scan w files acc = Ok m →
  (k ∈ file_keys w files →
   ∃ content, os_read w k = Ok content ∧ m !! k = Some (sha256_hex content)) ∧
  (k ∉ file_keys w files → m !! k = acc !! k).
Proof.
  revert acc. induction files as [| q rest IH]; intros acc Hs; simpl in Hs.
  - injection Hs as <-. split; [by intros ?%elem_of_nil | done].
  - rewrite file_keys_cons. destruct (is_file w q) eqn:Hf; [| by apply IH].
    rewrite calculate_file_hash_read in Hs.
    destruct (os_read w (PurePath.str q)) as [content |] eqn:Hr; [| done].
    simpl in Hs. destruct (IH _ Hs) as [IHin IHout].
    destruct (decide (k ∈ file_keys w rest)) as [Hk | Hk].
    + split; [intros _; by apply IHin | intros []; by right].
    + rewrite (IHout Hk). destruct (decide (k = PurePath.str q)) as [-> | Hne].
      * rewrite lookup_insert_eq. split; [eauto | intros []; by left].
      * rewrite lookup_insert_ne by done.
        split; [| done]. intros [? | ?]%elem_of_cons; done.
Qed.

Lemma init_run (path : string) (s : state) :
  init path s
  = match init_scan (fs s) (PurePath.of_string path) with
    | Ok m =>
        match save_hashes (fs s) m with
        | Ok w' => (Ok tt, State w' (stdout s ++ ["Hashes stored successfully."]))
        | Raise e => (Raise e, s)
        end
    | Raise e => (Raise e, s)
    end.
Proof.
  unfold init, init_scan. unfold bind at 1 2. unfold query at 1.
  destruct (is_file (fs s) _).
  - unfold bind, reading, ret, writing, echo.
    destruct (calculate_file_hash _ _); simpl; [| done].
    by destruct (save_hashes _ _).
  - unfold bind at 1. unfold query at 1. destruct (is_dir (fs s) _).
    + unfold bind at 1. unfold query at 1. rewrite for_fold_init_visit.
      destruct (scan _ _ _); [| done].
      unfold bind, writing, echo. by destruct (save_hashes _ _).
    + unfold ret, bind, writing, echo. by destruct (save_hashes _ _).
Qed.

Lemma init_scan_lookup (w : world) (p : Path) (m : gmap string string) (k : string) :
  init_scan w p = Ok m →
  (k ∈ scanned_keys w p →
   ∃ content, os_read w k = Ok content ∧ m !! k = Some (sha256_hex content)) ∧
  (k ∉ scanned_keys w p → m !! k = None).
Proof.
  unfold init_scan, scanned_keys. destruct (is_file w p).
  - rewrite calculate_file_hash_read.
    destruct (os_read w (PurePath.str p)) as [content |] eqn:Hr; [| done].
    intros [= <-]. split.
    + intros ->%list_elem_of_singleton. rewrite lookup_insert_eq. eauto.
    + intros Hk. rewrite lookup_insert_ne; [done |].
      intros <-. apply Hk. by left.
  - destruct (is_dir w p).
    + intros Hs. destruct (scan_lookup w _ _ _ k Hs) as [Hin Hout].
      split; [done |]. intros Hk. by rewrite Hout.
    + intros [= <-]. split; [by intros ?%elem_of_nil | done].
Qed.

(** *** The scanned keys of a directory *)

(** For a directory, the scanned keys are the path strings of the regular
    files located below it in the tree. *)
Lemma scanned_keys_directory (w : world) (path : string) (d : list string) (k : string) :
  let p := PurePath.of_string path in
  valid_tree (fsroot w) = true →
  is_dir w p = true →
  os_locate w (PurePath.str p) = Some d →
  k ∈ scanned_keys w p ↔
  ∃ names a c,
    names ≠ [] ∧
    k = PurePath.str (PurePath.mk (PurePath.root p) (PurePath.tail p ++ names)) ∧
    lookup_loc (fsroot w) (d ++ names) = Some (File a c).
Proof.
  intros p Hvalid Hdir Hd. unfold scanned_keys, file_keys.
  rewrite (is_dir_not_file _ _ Hdir), Hdir.
  assert (∃ n, os_stat w (PurePath.str p) = Some n ∧
               lookup_loc (fsroot w) d = Some n ∧ valid_tree n = true)
    as (n & Hstat & Hn & Hvn).
  { unfold is_dir in Hdir. destruct (os_stat w (PurePath.str p)) as [n |] eqn:Hn; [| done].
    exists n. unfold os_stat in Hn. rewrite Hd in Hn. simpl in Hn.
    split_and!; [done | done | by eapply valid_tree_lookup]. }
  unfold rglob. rewrite Hstat. rewrite list_elem_of_fmap. split.
  - intros (q & -> & [Hf Hq]%list_elem_of_filter).
    destruct (rglob_node_below n p q Hvn Hq) as (names & Hne & Hnames & ->).
    unfold is_file, os_stat in Hf.
    destruct (os_locate w (PurePath.str (PurePath.mk _ _))) as [loc |] eqn:Hloc;
      [simpl in Hf | done].
    rewrite (os_locate_below w p names d loc (of_string_clean path) Hne Hnames Hd Hloc) in Hf.
    destruct (lookup_loc (fsroot w) (d ++ names)) as [[a c | |] |] eqn:Hl; try done.
    by exists names, a, c.
  - intros (names & a & c & Hne & -> & Hl).
    assert (lookup_loc n names = Some (File a c)) as Hrel
      by (by rewrite lookup_loc_app, Hn in Hl).
    pose proof (lookup_loc_valid_names _ _ _ Hvn Hrel) as Hnames.
    eexists. split; [done |]. apply list_elem_of_filter. split.
    + unfold is_file.
      by rewrite (os_stat_below w p d names _ (of_string_clean path) Hne Hnames Hd Hl).
    + by eapply rglob_node_complete.
Qed.

(** C2: when [init] completes, the stored mapping holds, for each scanned
    regular file, its path string with the digest of the bytes [init] read,
    and nothing else, whatever the store held before.  For a directory the
    scanned files are all the regular files of the tree below it. *)
Theorem init_replaces_store `{!YamlLaws} (path : string) (s s' : state) :
  init path s = (Ok tt, s') →
  let p := PurePath.of_string path in
  ∃ m,
    load_stored_hashes (fs s') = Ok m ∧
    (∀ k, k ∈ scanned_keys (fs s) p →
          ∃ content, os_read (fs s) k = Ok content ∧
                     m !! k = Some (sha256_hex content)) ∧
    (∀ k, k ∉ scanned_keys (fs s) p → m !! k = None) ∧
    (∀ d names a c,
       valid_tree (fsroot (fs s)) = true →
       is_dir (fs s) p = true →
       os_locate (fs s) (PurePath.str p) = Some d →
       names ≠ [] →
       lookup_loc (fsroot (fs s)) (d ++ names) = Some (File a c) →
       m !! PurePath.str (PurePath.mk (PurePath.root p) (PurePath.tail p ++ names))
       = Some (sha256_hex c)).
Proof.
  rewrite init_run.
  destruct (init_scan _ _) as [m |] eqn:Hscan; [| done].
  destruct (save_hashes _ _) as [w' |] eqn:Hsave; [| done].
  intros [= <-] p. exists m. simpl.
  assert (∀ k, k ∈ scanned_keys (fs s) p →
               ∃ content, os_read (fs s) k = Ok content ∧
                          m !! k = Some (sha256_hex content)) as Hin
    by (intros k; by destruct (init_scan_lookup _ _ _ k Hscan)).
  split_and!; [by apply load_after_save in Hsave | done | |].
  - intros k. by destruct (init_scan_lookup _ _ _ k Hscan).
  - intros d names a c Hvalid Hdir Hd Hne Hl.
    set (k := PurePath.str _).
    destruct (Hin k) as (content & Hread & Hm).
    { apply (scanned_keys_directory _ _ d); try done. by exists names, a, c. }
    assert (Forall (fun x => valid_name x = true) names) as Hnames.
    { apply lookup_loc_valid_names in Hl; [| done]. by apply Forall_app in Hl as [_ ?]. }
    pose proof (os_stat_below _ _ _ _ _ (of_string_clean path) Hne Hnames Hd Hl) as Hstat.
    apply os_stat_read in Hstat. fold p k in Hstat. rewrite Hread in Hstat.
    destruct a; by simplify_eq.
Qed.

(** *** The walk of [check] *)

Lemma check_single_file_run (m : gmap string string) (q : Path) (s : state) :
  check_single_file m q s
  = match status_line (fs s) m q with
    | Ok l => (Ok tt, State (fs s) (stdout s ++ [l]))
    | Raise e => (Raise e, s)
    end.
Proof.
  unfold check_single_file, status_line.
  destruct (m !! PurePath.str q); [| done].
  unfold bind, reading, echo.
  destruct (calculate_file_hash _ _); simpl; [| done].
  by destruct (String.eqb _ _).
Qed.

Lemma for_each_check_visit (m : gmap string string) (files : list Path) (s : state) :
  for_each files (check_visit m) s
  = ((walk_report (fs s) m files).2,
     State (fs s) (stdout s ++ (walk_report (fs s) m files).1)).
Proof.
  unfold for_each. revert s.
  induction files as [| q rest IH]; intros s; simpl.
  - rewrite app_nil_r. by destruct s.
  - unfold bind at 1. unfold check_visit at 1. unfold bind at 1. unfold query at 1.
    destruct (is_file (fs s) q); [| unfold ret; apply IH].
    unfold bind at 1. unfold echo at 1. rewrite check_single_file_run. simpl.
    destruct (status_line (fs s) m q) as [l |]; [| done].
    rewrite IH. simpl. destruct (walk_report (fs s) m rest) as [out r]. simpl.
    by rewrite <- !app_assoc.
Qed.

Lemma walk_report_app (w : world) (m : gmap string string) (l1 l2 : list Path) :
  walk_report w m (l1 ++ l2)
  = match walk_report w m l1 with
    | (out, Ok _) => (out ++ (walk_report w m l2).1, (walk_report w m l2).2)
    | (out, Raise e) => (out, Raise e)
    end.
Proof.
  induction l1 as [| q l1 IH]; simpl; [by destruct (walk_report w m l2) |].
  destruct (is_file w q); [| done].
  destruct (status_line w m q); [| done].
  rewrite IH. by destruct (walk_report w m l1) as [out [[] |]].
Qed.

Lemma walk_report_ok (w : world) (m : gmap string string) (files : list Path) :
  (∀ q, q ∈ files → is_file w q = true →
        m !! PurePath.str q = None ∨
        ∃ h, calculate_file_hash w (PurePath.str q) = Ok h) →
  (walk_report w m files).2 = Ok tt.
Proof.
  induction files as [| q rest IH]; intros Hr; simpl; [done |].
  assert ((walk_report w m rest).2 = Ok tt) as Hrest
    by (apply IH; intros q' Hq'; apply Hr; by right).
  destruct (is_file w q) eqn:Hf; [| done].
  unfold status_line.
  destruct (Hr q) as [-> | [h Hh]]; [by left | done | |].
  - by destruct (walk_report w m rest).
  - destruct (m !! PurePath.str q); rewrite ?Hh; simpl;
      by destruct (walk_report w m rest).
Qed.

Lemma check_run (path : string) (s : state) :
  check path s
  = let p := PurePath.of_string path in
    match load_stored_hashes (fs s) with
    | Raise e => (Raise e, s)
    | Ok m =>
        if is_file (fs s) p then check_single_file m p s
        else if is_dir (fs s) p then
          ((walk_report (fs s) m (rglob (fs s) p)).2,
           State (fs s) (stdout s ++ (walk_report (fs s) m (rglob (fs s) p)).1))
        else (Ok tt, s)
    end.
Proof.
  unfold check. unfold bind at 1. unfold reading at 1.
  destruct (load_stored_hashes (fs s)) as [m |]; [| done].
  unfold bind at 1. unfold query at 1. simpl.
  destruct (is_file (fs s) _); [done |].
  unfold bind at 1. unfold query at 1.
  destruct (is_dir (fs s) _); [| done].
  unfold bind at 1. unfold query at 1. apply for_each_check_visit.
Qed.

(** C9: in a directory walk the first regular file whose hashing raises
    ends the command with that exception.  [init] then has saved nothing;
    [check] has printed the lines of the files before it and stops. *)
Theorem walk_aborts_on_unreadable_file (path : string) (s : state)
    (pre post : list Path) (q : Path) (e : exn) :
  is_dir (fs s) (PurePath.of_string path) = true →
  rglob (fs s) (PurePath.of_string path) = pre ++ q :: post →
  is_file (fs s) q = true →
  calculate_file_hash (fs s) (PurePath.str q) = Raise e →
  ((∀ x, x ∈ pre → is_file (fs s) x = true →
         ∃ h, calculate_file_hash (fs s) (PurePath.str x) = Ok h) →
   init path s = (Raise e, s)) ∧
  (∀ m d,
     load_stored_hashes (fs s) = Ok m →
     m !! PurePath.str q = Some d →
     (∀ x, x ∈ pre → is_file (fs s) x = true →
           m !! PurePath.str x = None ∨
           ∃ h, calculate_file_hash (fs s) (PurePath.str x) = Ok h) →
     ∃ out,
       check path s
       = (Raise e, State (fs s) (stdout s ++ out ++ [checking_line q]))).
Proof.
  intros Hd Hwalk Hf He. pose proof (is_dir_not_file _ _ Hd) as Hnf. split.
  - intros Hpre. rewrite init_run. unfold init_scan.
    rewrite Hnf, Hd, Hwalk, scan_app.
    destruct (scan_readable (fs s) pre ∅ Hpre) as [m ->]. simpl.
    by rewrite Hf, He.
  - intros m d Hload Hq Hpre. rewrite check_run, Hload. simpl.
    rewrite Hnf, Hd, Hwalk, walk_report_app.
    pose proof (walk_report_ok (fs s) m pre Hpre) as Hok.
    destruct (walk_report (fs s) m pre) as [out r]. simpl in Hok. subst r.
    exists out. simpl. unfold status_line. by rewrite Hf, Hq, He.
Qed.

(** *** [init] followed by [check] *)


Lemma is_dir_at_stat (w : world) (p : Path) :
  is_dir w p
  = match os_locate w (PurePath.str p) with
    | Some loc => is_dir_at (fsroot w) loc
    | None => false
    end.
Proof.
  unfold is_dir, os_stat, is_dir_at.
  by destruct (os_locate w (PurePath.str p)).
Qed.



Lemma init_saves (path : string) (s s1 : state) :
  init path s = (Ok tt, s1) →
  ∃ m, init_scan (fs s) (PurePath.of_string path) = Ok m ∧
       save_hashes (fs s) m = Ok (fs s1).
Proof.
  rewrite init_run.
  destruct (init_scan _ _) as [m |]; [| done].
  destruct (save_hashes _ _) as [w1 |] eqn:Hsave; [| done].
  intros [= <-]. eauto.
Qed.

Lemma is_dir_after_save (w w1 : world) (m : gmap string string) (p : Path) :
  save_hashes w m = Ok w1 → is_dir w1 p = is_dir w p.
Proof.
  unfold save_hashes. intros (_ & rt' & Hwrite & ->)%os_write_store.
  rewrite !is_dir_at_stat, (os_locate_after_write _ _ _ _ Hwrite).
  destruct (os_locate w (PurePath.str p)); [| done].
  by eapply write_loc_is_dir_at.
Qed.


(** *** Classification by [check] *)



End CommandProperties.

(** * The properties on the sample file systems *)

Section Samples.
Import Concrete ConcreteLaws Example.



(** C2 on [project]: [init docs] completes and the store it leaves describes
    exactly the files below [docs]. *)
Lemma init_replaces_store_witness :
  let p := PurePath.of_string "docs" in
  init "docs" (State project []) = (Ok tt, State tracked ["Hashes stored successfully."]) ∧
  ∃ m,
    load_stored_hashes tracked = Ok m ∧
    (∀ k, k ∈ scanned_keys project p →
          ∃ content, os_read project k = Ok content ∧
                     m !! k = Some (sha256_hex content)) ∧
    (∀ k, k ∉ scanned_keys project p → m !! k = None) ∧
    (∀ d names a c,
       valid_tree (fsroot project) = true →
       is_dir project p = true →
       os_locate project (PurePath.str p) = Some d →
       names ≠ [] →
       lookup_loc (fsroot project) (d ++ names) = Some (File a c) →
       m !! PurePath.str (PurePath.mk (PurePath.root p) (PurePath.tail p ++ names))
       = Some (sha256_hex c)).
Proof.
  intros p.
  assert (init "docs" (State project [])
          = (Ok tt, State tracked ["Hashes stored successfully."])) as Hinit
    by (vm_compute; reflexivity).
  split; [exact Hinit |].
  exact (init_replaces_store "docs" (State project []) _ Hinit).
Defined.

(** C3 on [tracked]: [update a.txt] adds the entry of [a.txt] and keeps the
    entry of [docs/b.txt]. *)
Lemma update_changes_one_entry_witness :
  let s := State tracked [] in
  let key := PurePath.str (PurePath.of_string "a.txt") in
  is_file tracked (PurePath.of_string "a.txt") = true ∧
  update "a.txt" s = (Ok tt, (update "a.txt" s).2) ∧
  ∃ m content,
    load_stored_hashes tracked = Ok m ∧
    os_read tracked key = Ok content ∧
    load_stored_hashes (fs (update "a.txt" s).2) = Ok (<[key := sha256_hex content]> m) ∧
    ∀ m' k, load_stored_hashes (fs (update "a.txt" s).2) = Ok m' →
            k ≠ key → m' !! k = m !! k.
Proof.
  intros s key.
  assert (is_file tracked (PurePath.of_string "a.txt") = true) as Hf
    by (vm_compute; reflexivity).
  assert (update "a.txt" s = (Ok tt, (update "a.txt" s).2)) as Hu
    by (vm_compute; reflexivity).
  split_and!; [exact Hf | exact Hu |].
  exact (update_changes_one_entry "a.txt" s _ (Ok tt) Hf Hu).
Defined.

(** C4 on [project]: a one-entry mapping saved and loaded again. *)
Lemma save_load_roundtrip_witness :
  save_hashes project {["secret" := "0000"]} = Ok tracked_secret ∧
  load_stored_hashes tracked_secret = Ok {["secret" := "0000"]} ∧
  (load_stored_hashes project = Ok {["secret" := "0000"]} →
   load_stored_hashes tracked_secret = load_stored_hashes project).
Proof.
  assert (save_hashes project {["secret" := "0000"]} = Ok tracked_secret) as Hsave
    by (vm_compute; reflexivity).
  split; [exact Hsave |].
  exact (save_load_roundtrip project tracked_secret _ Hsave).
Defined.

(** C5: [project] has no store document; an empty document loads as the
    empty mapping; a document holding an opening brace only is rejected. *)
Lemma load_absent_empty_malformed_witness :
  (os_path_exists project HASH_FILE = false ∧ load_stored_hashes project = Ok ∅) ∧
  (os_read (with_store EmptyString) HASH_FILE = Ok [] ∧
   load_stored_hashes (with_store EmptyString) = Ok ∅) ∧
  (os_read (with_store "{") HASH_FILE = Ok (bytes "{") ∧
   yaml_safe_load (String.string_of_list_byte (bytes "{")) = Raise YAMLError ∧
   load_stored_hashes (with_store "{") = Raise YAMLError).
Proof.
  assert (os_path_exists project HASH_FILE = false) as Habsent
    by (vm_compute; reflexivity).
  assert (os_read (with_store EmptyString) HASH_FILE = Ok []) as Hempty
    by (vm_compute; reflexivity).
  assert (os_read (with_store "{") HASH_FILE = Ok (bytes "{")) as Hbad
    by (vm_compute; reflexivity).
  assert (yaml_safe_load (String.string_of_list_byte (bytes "{")) = Raise YAMLError)
    as Hparse by (vm_compute; reflexivity).
  split_and!;
    [ exact Habsent
    | exact (proj1 (load_absent_empty_malformed project) Habsent)
    | exact Hempty
    | exact (proj1 (proj2 (load_absent_empty_malformed (with_store EmptyString))) Hempty)
    | exact Hbad
    | exact Hparse
    | exact (proj2 (proj2 (load_absent_empty_malformed (with_store "{")))
               _ _ Hbad Hparse) ].
Defined.


(** C7: [a.txt] of [project] and [/copy] of [elsewhere] hold the same bytes. *)
Lemma calculate_file_hash_deterministic_witness :
  os_read project "a.txt" = Ok (bytes "alpha") ∧
  os_read elsewhere "/copy" = Ok (bytes "alpha") ∧
  calculate_file_hash project "a.txt" = Ok (sha256_hex (bytes "alpha")) ∧
  calculate_file_hash elsewhere "/copy" = calculate_file_hash project "a.txt".
Proof.
  assert (os_read project "a.txt" = Ok (bytes "alpha")) as H1
    by (vm_compute; reflexivity).
  assert (os_read elsewhere "/copy" = Ok (bytes "alpha")) as H2
    by (vm_compute; reflexivity).
  split_and!; [exact H1 | exact H2 | |];
    apply (calculate_file_hash_deterministic project elsewhere "a.txt" "/copy" _ H1 H2).
Defined.


(** C9 on [tracked_secret]: the walk of the working directory meets
    [secret], which cannot be opened, after [a.txt] and [docs]. *)
Lemma walk_aborts_on_unreadable_file_witness :
  let s := State tracked_secret [] in
  let pre := [PurePath.of_string "a.txt"; PurePath.of_string "docs"] in
  let q := PurePath.of_string "secret" in
  let post := [PurePath.of_string HASH_FILE; PurePath.of_string "docs/b.txt";
               PurePath.of_string "docs/pipe"] in
  is_dir tracked_secret (PurePath.of_string ".") = true ∧
  rglob tracked_secret (PurePath.of_string ".") = pre ++ q :: post ∧
  is_file tracked_secret q = true ∧
  calculate_file_hash tracked_secret (PurePath.str q) = Raise PermissionError ∧
  load_stored_hashes tracked_secret = Ok {["secret" := "0000"]} ∧
  init "." s = (Raise PermissionError, s) ∧
  ∃ out, check "." s
         = (Raise PermissionError,
            State tracked_secret ([] ++ out ++ [checking_line q])).
Proof.
  intros s pre q post.
  assert (is_dir tracked_secret (PurePath.of_string ".") = true) as Hd
    by (vm_compute; reflexivity).
  assert (rglob tracked_secret (PurePath.of_string ".") = pre ++ q :: post) as Hwalk
    by (vm_compute; reflexivity).
  assert (is_file tracked_secret q = true) as Hf by (vm_compute; reflexivity).
  assert (calculate_file_hash tracked_secret (PurePath.str q) = Raise PermissionError)
    as He by (vm_compute; reflexivity).
  assert (load_stored_hashes tracked_secret = Ok {["secret" := "0000"]}) as Hload
    by (vm_compute; reflexivity).
  destruct (walk_aborts_on_unreadable_file "." s pre post q PermissionError
              Hd Hwalk Hf He) as [Hinit Hcheck].
  split_and!; [exact Hd | exact Hwalk | exact Hf | exact He | exact Hload | |].
  - apply Hinit. intros x Hx Hfx.
    apply elem_of_cons in Hx as [-> | Hx]; [eexists; vm_compute; reflexivity |].
    apply list_elem_of_singleton in Hx as ->. vm_compute in Hfx. discriminate Hfx.
  - apply (Hcheck {["secret" := "0000"]} "0000" Hload); [vm_compute; reflexivity |].
    intros x Hx Hfx.
    apply elem_of_cons in Hx as [-> | Hx]; [left; vm_compute; reflexivity |].
    apply list_elem_of_singleton in Hx as ->. vm_compute in Hfx. discriminate Hfx.
Defined.


End Samples.

(** * Further properties of the commands *)

(** ** What a save leaves alone *)

Lemma lookup_after_write_other (rt rt' : node) (loc l : list string)
    (content : list byte) :
  write_loc rt loc content = Ok rt' → l ≠ loc →
  lookup_loc rt' l = lookup_loc rt l ∨
  (is_dir_at rt' l = true ∧ is_dir_at rt l = true).
Proof.
  intros Hw Hne. destruct (decide (l `prefix_of` loc)) as [[rest Hrest] | Hnp].
  - right. destruct rest as [| r rest]; [by rewrite app_nil_r in Hrest |].
    pose proof (write_loc_lookup _ _ _ _ Hw) as Hl. rewrite Hrest in Hl.
    apply lookup_loc_prefix_dir in Hl; [| done].
    split; [done |]. by rewrite <- (write_loc_is_dir_at _ _ _ l _ Hw).
  - left. by eapply write_loc_frame.
Qed.

Section SaveFrame.
Context `{Yaml}.
Variables (w w1 : world) (m : gmap string string).
Hypothesis Hsave : save_hashes w m = Ok w1.

Lemma save_cwd : cwd w1 = cwd w.
Proof.
  unfold save_hashes in Hsave.
  by apply os_write_store in Hsave as (_ & rt' & _ & ->).
Qed.

Lemma save_store_loc : store_loc w1 = store_loc w.
Proof. unfold store_loc. by rewrite save_cwd. Qed.

Lemma save_os_locate (k : string) : os_locate w1 k = os_locate w k.
Proof.
  unfold save_hashes in Hsave.
  apply os_write_store in Hsave as (_ & rt' & Hwrite & ->).
  by eapply os_locate_after_write.
Qed.

(** Reading any path that does not name the store document gives what it
    gave before the save. *)
Lemma save_os_read_other (k : string) :
  os_locate w k ≠ Some (store_loc w) → os_read w1 k = os_read w k.
Proof.
  intros Hk. unfold os_read. rewrite save_os_locate.
  destruct (os_locate w k) as [l |] eqn:Hl; [| done].
  unfold save_hashes in Hsave.
  apply os_write_store in Hsave as (_ & rt' & Hwrite & ->). simpl.
  destruct (lookup_after_write_other _ _ _ l _ Hwrite) as [-> | [Hd1 Hd]];
    [congruence | done |].
  unfold is_dir_at in Hd1, Hd.
  destruct (lookup_loc rt' l) as [[] |], (lookup_loc (fsroot w) l) as [[] |]; done.
Qed.

Lemma save_is_file_other (p : Path) :
  os_locate w (PurePath.str p) ≠ Some (store_loc w) → is_file w1 p = is_file w p.
Proof.
  intros Hk. unfold is_file, os_stat. rewrite save_os_locate.
  destruct (os_locate w (PurePath.str p)) as [l |] eqn:Hl; [| done].
  unfold save_hashes in Hsave.
  apply os_write_store in Hsave as (_ & rt' & Hwrite & ->). simpl.
  destruct (lookup_after_write_other _ _ _ l _ Hwrite) as [-> | [Hd1 Hd]];
    [congruence | done |].
  unfold is_dir_at in Hd1, Hd.
  destruct (lookup_loc rt' l) as [[] |], (lookup_loc (fsroot w) l) as [[] |]; done.
Qed.

End SaveFrame.

(** ** What the commands change and print *)

Section Further.
Context `{Hashlib, Yaml}.

Lemma update_run (path : string) (s : state) :
  update path s
  = let p := PurePath.of_string path in
    if is_file (fs s) p then
      match load_stored_hashes (fs s) with
      | Raise e => (Raise e, s)
      | Ok m =>
          match calculate_file_hash (fs s) (PurePath.str p) with
          | Raise e => (Raise e, s)
          | Ok h =>
              match save_hashes (fs s) (<[PurePath.str p := h]> m) with
              | Raise e => (Raise e, s)
              | Ok w' => (Ok tt, State w' (stdout s ++ ["Hash updated successfully."]))
              end
          end
      end
    else (Ok tt, State (fs s) (stdout s ++ ["Error: Please provide a valid file path"])).
Proof.
  unfold update, bind, query, reading, writing, echo. simpl.
  destruct (is_file (fs s) _); [simpl | done].
  destruct (load_stored_hashes (fs s)); [| done].
  destruct (calculate_file_hash (fs s) _); [| done].
  by destruct (save_hashes (fs s) _).
Qed.

(** X1: [check] only reads: whatever it returns, the file system is the one
    it started with and the lines printed before are still there. *)
Theorem check_read_only (path : string) (s : state) :
  fs (check path s).2 = fs s ∧ stdout s `prefix_of` stdout (check path s).2.
Proof.
  rewrite check_run. simpl.
  destruct (load_stored_hashes (fs s)) as [m |]; [| done].
  destruct (is_file (fs s) _).
  - rewrite check_single_file_run.
    destruct (status_line _ _ _); simpl; [| done].
    split; [done | by apply prefix_app_r].
  - destruct (is_dir (fs s) _); simpl; [| done].
    split; [done | by apply prefix_app_r].
Qed.






(** ** [check] some time after [init] *)

(** A file system in which the store document reads as in [w1] loads the
    mapping [w1] loads. *)
Lemma load_same_document (w1 w2 : world) (bytes : list byte) :
  os_read w1 HASH_FILE = Ok bytes →
  os_read w2 HASH_FILE = os_read w1 HASH_FILE →
  load_stored_hashes w2 = load_stored_hashes w1.
Proof.
  intros H1 H2. unfold load_stored_hashes.
  rewrite (os_read_exists w1 _ _ H1), (os_read_exists w2 _ bytes) by congruence.
  by rewrite H2.
Qed.

Lemma save_os_read_store (w w1 : world) (m : gmap string string) :
  save_hashes w m = Ok w1 →
  os_read w1 HASH_FILE = Ok (String.list_byte_of_string (yaml_dump m)).
Proof. unfold save_hashes. by intros [_ ?]%os_read_write_store. Qed.

Lemma init_then_load `{!YamlLaws} (path : string) (s s1 : state) (w2 : world) :
  init path s = (Ok tt, s1) →
  os_read w2 HASH_FILE = os_read (fs s1) HASH_FILE →
  ∃ m, init_scan (fs s) (PurePath.of_string path) = Ok m ∧
       load_stored_hashes w2 = Ok m.
Proof.
  intros (m & Hscan & Hsave)%init_saves Hdoc. exists m. split; [done |].
  rewrite (load_same_document (fs s1) w2 _ (save_os_read_store _ _ _ Hsave) Hdoc).
  by eapply load_after_save.
Qed.

(** X6: change detection.  After [init], in any later file system whose
    store document is intact, [check] on a file that [init] scanned prints
    Unmodified when the digest of its bytes now equals the digest of its
    bytes then, and Modified otherwise. *)
Theorem check_detects_change `{!YamlLaws} (path path2 : string) (s s1 : state)
    (w2 : world) (out : list string) (c c2 : list byte) :
  let q := PurePath.of_string path2 in
  init path s = (Ok tt, s1) →
  os_read w2 HASH_FILE = os_read (fs s1) HASH_FILE →
  PurePath.str q ∈ scanned_keys (fs s) (PurePath.of_string path) →
  os_read (fs s) (PurePath.str q) = Ok c →
  is_file w2 q = true →
  os_read w2 (PurePath.str q) = Ok c2 →
  check path2 (State w2 out)
  = (Ok tt, State w2 (out ++ [if decide (sha256_hex c2 = sha256_hex c)
                              then "Status: Unmodified"
                              else "Status: Modified (Hash mismatch)"])).
Proof.
  intros q Hinit Hdoc Hk Hc Hf Hc2.
  destruct (init_then_load _ _ _ _ Hinit Hdoc) as (m & Hscan & Hload).
  destruct (init_scan_lookup _ _ _ (PurePath.str q) Hscan) as [Hin _].
  destruct (Hin Hk) as (c' & Hc' & Hm). rewrite Hc in Hc'. injection Hc' as <-.
  rewrite check_run. simpl. fold q. rewrite Hload, Hf.
  rewrite check_single_file_run. unfold status_line. simpl.
  rewrite Hm, calculate_file_hash_read, Hc2. simpl.
  case_decide as Heq.
  - by rewrite Heq, String.eqb_refl.
  - by destruct (String.eqb_spec (sha256_hex c2) (sha256_hex c)).
Qed.

(** X7: keys are compared as strings.  After [init], in any later file
    system whose store document is intact, [check] on a regular file whose
    path string [init] did not scan prints Unknown, also when it is a file
    [init] hashed under another path string. *)
Theorem check_unknown_other_key `{!YamlLaws} (path path2 : string) (s s1 : state)
    (w2 : world) (out : list string) :
  let q := PurePath.of_string path2 in
  init path s = (Ok tt, s1) →
  os_read w2 HASH_FILE = os_read (fs s1) HASH_FILE →
  PurePath.str q ∉ scanned_keys (fs s) (PurePath.of_string path) →
  is_file w2 q = true →
  check path2 (State w2 out) = (Ok tt, State w2 (out ++ [unknown_line q])).
Proof.
  intros q Hinit Hdoc Hk Hf.
  destruct (init_then_load _ _ _ _ Hinit Hdoc) as (m & Hscan & Hload).
  destruct (init_scan_lookup _ _ _ (PurePath.str q) Hscan) as [_ Hout].
  rewrite check_run. simpl. fold q. rewrite Hload, Hf.
  rewrite check_single_file_run. unfold status_line. simpl.
  by rewrite (Hout Hk).
Qed.

(** X8: [init] on a single regular file other than the store document,
    followed by [check] on the same path, prints Unmodified. *)
Theorem init_file_then_check `{!YamlLaws} (path : string) (s s1 : state)
    (out : list string) :
  let p := PurePath.of_string path in
  is_file (fs s) p = true →
  os_locate (fs s) (PurePath.str p) ≠ Some (store_loc (fs s)) →
  init path s = (Ok tt, s1) →
  check path (State (fs s1) out)
  = (Ok tt, State (fs s1) (out ++ ["Status: Unmodified"])).
Proof.
  intros p Hf Hns Hinit.
  destruct (init_saves _ _ _ Hinit) as (m & Hscan & Hsave).
  unfold init_scan in Hscan. fold p in Hscan. rewrite Hf in Hscan.
  rewrite calculate_file_hash_read in Hscan.
  destruct (os_read (fs s) (PurePath.str p)) as [c |] eqn:Hc; [| done].
  simpl in Hscan. injection Hscan as <-.
  rewrite check_run. simpl. fold p.
  rewrite (load_after_save _ _ _ Hsave).
  rewrite (save_is_file_other _ _ _ Hsave), Hf by done.
  rewrite check_single_file_run. unfold status_line. simpl.
  rewrite lookup_insert_eq, calculate_file_hash_read.
  rewrite (save_os_read_other _ _ _ Hsave), Hc by done. simpl.
  by rewrite String.eqb_refl.
Qed.

(** ** [update] *)

Lemma update_saves (path : string) (s s1 : state) :
  is_file (fs s) (PurePath.of_string path) = true →
  update path s = (Ok tt, s1) →
  ∃ m c,
    load_stored_hashes (fs s) = Ok m ∧
    os_read (fs s) (PurePath.str (PurePath.of_string path)) = Ok c ∧
    save_hashes (fs s) (<[PurePath.str (PurePath.of_string path) := sha256_hex c]> m)
    = Ok (fs s1) ∧
    stdout s1 = stdout s ++ ["Hash updated successfully."].
Proof.
  intros Hf. rewrite update_run. simpl. rewrite Hf.
  destruct (load_stored_hashes (fs s)) as [m |]; [| done].
  rewrite calculate_file_hash_read.
  destruct (os_read (fs s) _) as [c |]; [| done]. simpl.
  destruct (save_hashes _ _) as [w' |] eqn:Hsave; [| done].
  intros [= <-]. by exists m, c.
Qed.

(** X9: [update] on a regular file other than the store document, followed
    by [check] on the same path, prints Unmodified, whatever was stored for
    the file before. *)
Theorem update_then_check `{!YamlLaws} (path : string) (s s1 : state)
    (out : list string) :
  let p := PurePath.of_string path in
  is_file (fs s) p = true →
  os_locate (fs s) (PurePath.str p) ≠ Some (store_loc (fs s)) →
  update path s = (Ok tt, s1) →
  check path (State (fs s1) out)
  = (Ok tt, State (fs s1) (out ++ ["Status: Unmodified"])).
Proof.
  intros p Hf Hns Hupd.
  destruct (update_saves _ _ _ Hf Hupd) as (m & c & Hload & Hc & Hsave & _).
  fold p in Hc, Hsave.
  rewrite check_run. simpl. fold p.
  rewrite (load_after_save _ _ _ Hsave).
  rewrite (save_is_file_other _ _ _ Hsave), Hf by done.
  rewrite check_single_file_run. unfold status_line. simpl.
  rewrite lookup_insert_eq, calculate_file_hash_read.
  rewrite (save_os_read_other _ _ _ Hsave), Hc by done. simpl.
  by rewrite String.eqb_refl.
Qed.

Lemma dir_set_same (c : string) (v : node) (es : list (string * node)) :
  dir_lookup c es = Some v → dir_set c v es = es.
Proof.
  induction es as [| [k x] es IH]; simpl; [done |].
  destruct (String.eqb_spec k c) as [-> | Hne]; [by intros [= ->] |].
  intros Hl. by rewrite IH.
Qed.

(** Writing to a file the bytes it holds changes nothing. *)
Lemma write_loc_same (n : node) (loc : list string) (content : list byte) :
  lookup_loc n loc = Some (File true content) → write_loc n loc content = Ok n.
Proof.
  revert n. induction loc as [| c cs IH]; intros n; simpl.
  - by intros [= ->].
  - destruct n as [| es |]; try done.
    destruct (dir_lookup c es) as [ch |] eqn:Hc; [| done].
    intros Hl. rewrite (IH ch Hl). simpl. by rewrite dir_set_same.
Qed.

(** Saving again the mapping that was just saved changes nothing. *)
Lemma save_hashes_again (w w1 : world) (m : gmap string string) :
  save_hashes w m = Ok w1 → save_hashes w1 m = Ok w1.
Proof.
  unfold save_hashes. intros (Hd & rt' & Hwrite & ->)%os_write_store.
  unfold os_write. simpl. change (os_components HASH_FILE) with [HASH_FILE]. simpl.
  pose proof (write_loc_is_dir_at _ _ _ (cwd w) _ Hwrite) as Hd'.
  rewrite Hd in Hd'. unfold is_dir_at in Hd'.
  destruct (lookup_loc rt' (cwd w)) as [[] |]; try done.
  pose proof (write_loc_lookup _ _ _ _ Hwrite) as Hl. unfold store_loc in Hl.
  apply write_loc_same in Hl. unfold HASH_FILE in Hl. simpl in Hl.
  by rewrite Hl.
Qed.

(** X10: [update] is idempotent: repeated at once on a regular file other
    than the store document, it succeeds again and leaves the whole file
    system, the store document included, as the first run left it. *)
Theorem update_idempotent `{!YamlLaws} (path : string) (s s1 : state)
    (out : list string) :
  let p := PurePath.of_string path in
  is_file (fs s) p = true →
  os_locate (fs s) (PurePath.str p) ≠ Some (store_loc (fs s)) →
  update path s = (Ok tt, s1) →
  update path (State (fs s1) out)
  = (Ok tt, State (fs s1) (out ++ ["Hash updated successfully."])).
Proof.
  intros p Hf Hns Hupd.
  destruct (update_saves _ _ _ Hf Hupd) as (m & c & Hload & Hc & Hsave & _).
  fold p in Hc, Hsave.
  rewrite update_run. simpl. fold p.
  rewrite (save_is_file_other _ _ _ Hsave), Hf by done.
  rewrite (load_after_save _ _ _ Hsave), calculate_file_hash_read.
  rewrite (save_os_read_other _ _ _ Hsave), Hc by done. simpl.
  rewrite insert_insert_eq.
  by rewrite (save_hashes_again _ _ _ Hsave).
Qed.

(** ** The report of [check] some time after [init] *)



(** ** Failures of the store *)


(** ** [init] twice *)

Lemma scan_ext (w w1 : world) (files : list Path) (acc : gmap string string) :
  (∀ q, q ∈ files →
        is_file w1 q = is_file w q ∧
        os_read w1 (PurePath.str q) = os_read w (PurePath.str q)) →
  scan w1 files acc = scan w files acc.
Proof.
  revert acc. induction files as [| q rest IH]; intros acc Hq; simpl; [done |].
  destruct (Hq q) as [-> Hr]; [by left |].
  rewrite !calculate_file_hash_read, Hr.
  destruct (is_file w q); [| apply IH; intros q' Hq'; apply Hq; by right].
  destruct (os_read w (PurePath.str q)); simpl; [| done].
  apply IH. intros q' Hq'. apply Hq. by right.
Qed.

(** A save leaves the walk of a directory that does not hold the store
    document as it was. *)
Lemma walk_after_save (w w1 : world) (m : gmap string string) (path : string)
    (d : list string) :
  let p := PurePath.of_string path in
  valid_tree (fsroot w) = true →
  is_dir w p = true →
  os_locate w (PurePath.str p) = Some d →
  ¬ d `prefix_of` store_loc w →
  save_hashes w m = Ok w1 →
  rglob w1 p = rglob w p ∧
  ∀ q, q ∈ rglob w p →
       is_file w1 q = is_file w q ∧
       os_read w1 (PurePath.str q) = os_read w (PurePath.str q).
Proof.
  intros p Hvalid Hdir Hd Hnp Hsave.
  assert (Hbelow : ∀ q, q ∈ rglob w p →
            os_locate w (PurePath.str q) ≠ Some (store_loc w)).
  { intros q Hq Hl. unfold rglob in Hq.
    destruct (os_stat w (PurePath.str p)) as [n |] eqn:Hn;
      [| by apply elem_of_nil in Hq].
    assert (valid_tree n = true) as Hvn.
    { unfold os_stat in Hn. rewrite Hd in Hn. simpl in Hn.
      by eapply valid_tree_lookup. }
    destruct (rglob_node_below n p q Hvn Hq) as (names & Hne & Hnames & ->).
    apply Hnp. exists names.
    by apply (os_locate_below w p names d _ (of_string_clean path)). }
  split.
  - unfold rglob.
    assert (os_stat w1 (PurePath.str p) = os_stat w (PurePath.str p)) as ->; [| done].
    pose proof Hsave as Hsave'. unfold save_hashes in Hsave'.
    apply os_write_store in Hsave' as (_ & rt' & Hwrite & ->).
    eapply os_stat_after_write; [done |]. intros l Hl. by simplify_eq.
  - intros q Hq. split.
    + by apply (save_is_file_other _ _ _ Hsave), Hbelow.
    + by apply (save_os_read_other _ _ _ Hsave), Hbelow.
Qed.

(** X13: [init] is idempotent when the store document is not among the
    files it hashes: run again at once on the same path (a directory that is
    neither the working directory nor one of its ancestors, or anything else
    that is not the store document), it succeeds again and leaves the whole
    file system, the store document included, as the first run left it. *)
Theorem init_idempotent `{!YamlLaws} (path : string) (s s1 : state)
    (out : list string) :
  let p := PurePath.of_string path in
  init path s = (Ok tt, s1) →
  (is_dir (fs s) p = false →
   os_locate (fs s) (PurePath.str p) ≠ Some (store_loc (fs s)) →
   init path (State (fs s1) out)
   = (Ok tt, State (fs s1) (out ++ ["Hashes stored successfully."]))) ∧
  (∀ d, valid_tree (fsroot (fs s)) = true →
        is_dir (fs s) p = true →
        os_locate (fs s) (PurePath.str p) = Some d →
        ¬ d `prefix_of` store_loc (fs s) →
        init path (State (fs s1) out)
        = (Ok tt, State (fs s1) (out ++ ["Hashes stored successfully."]))).
Proof.
  intros p Hinit.
  destruct (init_saves _ _ _ Hinit) as (m & Hscan & Hsave). fold p in Hscan.
  assert (init_scan (fs s1) p = Ok m →
          init path (State (fs s1) out)
          = (Ok tt, State (fs s1) (out ++ ["Hashes stored successfully."]))) as Hagain.
  { intros Hscan1. rewrite init_run. simpl. fold p.
    by rewrite Hscan1, (save_hashes_again _ _ _ Hsave). }
  split.
  - intros Hd Hns. apply Hagain. unfold init_scan in *.
    rewrite (save_is_file_other _ _ _ Hsave), (is_dir_after_save _ _ _ _ Hsave) by done.
    rewrite Hd in *. rewrite calculate_file_hash_read in *.
    by rewrite (save_os_read_other _ _ _ Hsave).
  - intros d Hvalid Hd Hloc Hnp. apply Hagain.
    destruct (walk_after_save _ _ _ path d Hvalid Hd Hloc Hnp Hsave) as [Hwalk Hfiles].
    fold p in Hwalk, Hfiles.
    unfold init_scan in *.
    pose proof (is_dir_after_save _ _ _ p Hsave) as Hd1. rewrite Hd in Hd1.
    rewrite (is_dir_not_file _ _ Hd1), Hd1.
    rewrite (is_dir_not_file _ _ Hd), Hd in Hscan.
    by rewrite Hwalk, (scan_ext (fs s) (fs s1)).
Qed.

End Further.

(** ** Path arguments *)

Lemma splitroot_relative (c : ascii) (r : string) :
  c ≠ "/"%char → PurePath.splitroot (String c r) = (EmptyString, String c r).
Proof.
  intros Hc. destruct c as [[] [] [] [] [] [] [] []]; done.
Qed.

Lemma splitroot_one_slash (c : ascii) (r : string) :
  c ≠ "/"%char →
  PurePath.splitroot (String "/" (String c r)) = ("/", String c r).
Proof.
  intros Hc. destruct c as [[] [] [] [] [] [] [] []]; done.
Qed.

Lemma splitroot_two_slashes (c : ascii) (r : string) :
  c ≠ "/"%char →
  PurePath.splitroot (String "/" (String "/" (String c r))) = ("//", String c r).
Proof.
  intros Hc. destruct c as [[] [] [] [] [] [] [] []]; done.
Qed.

Lemma filter_keep_clean (l : list string) :
  Forall (fun x => clean_part x = true) l → List.filter PurePath.keep_part l = l.
Proof.
  induction 1 as [| x l Hx Hl IH]; simpl; [done |].
  unfold clean_part in Hx. apply andb_true_iff in Hx as [_ Hx].
  by rewrite Hx, IH.
Qed.

(** Parsing the string of a path gives the path back. *)
Lemma of_string_str (p : Path) : clean_path p → PurePath.of_string (PurePath.str p) = p.
Proof.
  intros [Hroot Hclean]. destruct p as [r tl]. simpl in *.
  destruct tl as [| x tl].
  - repeat (apply elem_of_cons in Hroot as [-> | Hroot]);
      [done | done | done | by apply elem_of_nil in Hroot].
  - assert (PurePath.str (PurePath.mk r (x :: tl)) = r +:+ PurePath.join (x :: tl))
      as -> by (by destruct r).
    pose proof (split_join (x :: tl) ltac:(done) (clean_parts_slash_free _ Hclean))
      as Hsplit.
    pose proof (filter_keep_clean _ Hclean) as Hfilter.
    destruct (PurePath.join (x :: tl)) as [| c j] eqn:Hj.
    { simpl in Hsplit. injection Hsplit as <- _.
      by apply Forall_cons in Hclean as [? _]. }
    assert (c ≠ "/"%char) as Hc.
    { intros ->. simpl in Hsplit. injection Hsplit as <- _.
      by apply Forall_cons in Hclean as [? _]. }
    unfold PurePath.of_string.
    repeat (apply elem_of_cons in Hroot as [-> | Hroot]);
      [| | | by apply elem_of_nil in Hroot].
    + rewrite string_app_nil_l, splitroot_relative by done.
      by rewrite Hsplit, Hfilter.
    + rewrite string_app_cons, string_app_nil_l, splitroot_one_slash by done.
      by rewrite Hsplit, Hfilter.
    + rewrite !string_app_cons, string_app_nil_l, splitroot_two_slashes by done.
      by rewrite Hsplit, Hfilter.
Qed.

(** X14: the commands see their argument through [Path]: the key they store
    or look up is the normal form [str(Path(arg))], and replacing the
    argument by its normal form (no doubled or trailing slash, no [.]
    component) changes nothing in what a command does. *)
Theorem commands_normalise_argument `{Hashlib, Yaml} (path : string) :
  let normal := PurePath.str (PurePath.of_string path) in
  PurePath.str (PurePath.of_string normal) = normal ∧
  init normal = init path ∧
  check normal = check path ∧
  update normal = update path.
Proof.
  intros normal.
  assert (PurePath.of_string normal = PurePath.of_string path) as Hn
    by apply of_string_str, of_string_clean.
  unfold init, check, update. by rewrite Hn.
Qed.

(** ** How the commands can fail, and what [check] prints *)

Section Failures.
Context `{Hashlib, Yaml}.




Lemma walk_report_shape (w : world) (m : gmap string string) (files : list Path) :
  ∃ lines,
    Forall2 (fun q l =>
               l = unknown_line q ∨ l = "Status: Unmodified" ∨
               l = "Status: Modified (Hash mismatch)")
            (take (length lines) (filter (fun q => is_file w q = true) files)) lines ∧
    ((walk_report w m files).2 = Ok tt →
     length lines = length (filter (fun q => is_file w q = true) files) ∧
     (walk_report w m files).1
     = flat_map (fun ql => [checking_line ql.1; ql.2])
                (zip (filter (fun q => is_file w q = true) files) lines)).
Proof.
  induction files as [| q rest IH]; simpl.
  - exists []. split; [constructor | done].
  - rewrite filter_cons. destruct IH as (lines & Hall & Hok).
    destruct (is_file w q) eqn:Hf; [| rewrite decide_False by done; by exists lines].
    rewrite decide_True by done.
    destruct (status_line w m q) as [l |] eqn:Hl.
    + exists (l :: lines). split.
      * simpl. constructor; [| done]. unfold status_line in Hl.
        destruct (m !! PurePath.str q); [| injection Hl as <-; by left].
        destruct (calculate_file_hash w (PurePath.str q)); [| done].
        simpl in Hl. injection Hl as <-. destruct (String.eqb _ _); auto.
      * destruct (walk_report w m rest) as [out r]. simpl in *. intros Hr.
        destruct (Hok Hr) as [Hlen ->]. by rewrite Hlen.
    + exists []. split; [constructor | done].
Qed.

(** X17: when [check] on a directory completes, what it has printed is, for
    each regular file of the walk in order, its Checking line followed by
    exactly one of the three status lines; directories and other entries of
    the walk print nothing. *)
Theorem check_directory_output (path : string) (s s' : state) :
  let p := PurePath.of_string path in
  is_dir (fs s) p = true →
  check path s = (Ok tt, s') →
  ∃ lines,
    Forall2 (fun q l =>
               l = unknown_line q ∨ l = "Status: Unmodified" ∨
               l = "Status: Modified (Hash mismatch)")
            (filter (fun q => is_file (fs s) q = true) (rglob (fs s) p)) lines ∧
    stdout s'
    = stdout s ++ flat_map (fun ql => [checking_line ql.1; ql.2])
                           (zip (filter (fun q => is_file (fs s) q = true)
                                        (rglob (fs s) p)) lines).
Proof.
  intros p Hd. rewrite check_run. simpl. fold p.
  destruct (load_stored_hashes (fs s)) as [m |]; [| done].
  rewrite (is_dir_not_file _ _ Hd), Hd. intros [= Hr <-]. simpl.
  destruct (walk_report_shape (fs s) m (rglob (fs s) p)) as (lines & Hall & Hok).
  destruct (Hok Hr) as [Hlen ->]. exists lines. split; [| done].
  by rewrite Hlen, firstn_all in Hall.
Qed.

End Failures.

(** * The further properties on the sample file systems *)

Section FurtherSamples.
Import Concrete ConcreteLaws Example Later.




(** X6 on [edited]: [docs/b.txt], scanned by [init docs], has other bytes. *)
Lemma check_detects_change_witness :
  let s := State project [] in
  let s1 := State tracked ["Hashes stored successfully."] in
  let q := PurePath.of_string "docs/b.txt" in
  init "docs" s = (Ok tt, s1) ∧
  os_read edited HASH_FILE = os_read tracked HASH_FILE ∧
  PurePath.str q ∈ scanned_keys project (PurePath.of_string "docs") ∧
  os_read project (PurePath.str q) = Ok (bytes "beta") ∧
  is_file edited q = true ∧
  os_read edited (PurePath.str q) = Ok (bytes "beta!") ∧
  check "docs/b.txt" (State edited [])
  = (Ok tt, State edited
              ([] ++ [if decide (sha256_hex (bytes "beta!") = sha256_hex (bytes "beta"))
                      then "Status: Unmodified"
                      else "Status: Modified (Hash mismatch)"])).
Proof.
  intros s s1 q.
  assert (init "docs" s = (Ok tt, s1)) as Hinit by (vm_compute; reflexivity).
  assert (os_read edited HASH_FILE = os_read tracked HASH_FILE) as Hdoc
    by (vm_compute; reflexivity).
  assert (PurePath.str q ∈ scanned_keys project (PurePath.of_string "docs")) as Hk.
  { assert (scanned_keys project (PurePath.of_string "docs") = [PurePath.str q])
      as -> by (vm_compute; reflexivity).
    apply list_elem_of_here. }
  assert (os_read project (PurePath.str q) = Ok (bytes "beta")) as Hc
    by (vm_compute; reflexivity).
  assert (is_file edited q = true) as Hf by (vm_compute; reflexivity).
  assert (os_read edited (PurePath.str q) = Ok (bytes "beta!")) as Hc2
    by (vm_compute; reflexivity).
  split_and!; [exact Hinit | exact Hdoc | exact Hk | exact Hc | exact Hf | exact Hc2 |].
  exact (check_detects_change "docs" "docs/b.txt" s s1 edited [] _ _
           Hinit Hdoc Hk Hc Hf Hc2).
Defined.

(** X7 on [tracked_file]: the file [init] hashed as [docs/b.txt], checked
    under its absolute path. *)
Lemma check_unknown_other_key_witness :
  let s := State project [] in
  let s1 := State tracked_file ["Hashes stored successfully."] in
  let q := PurePath.of_string "/home/proj/docs/b.txt" in
  init "docs/b.txt" s = (Ok tt, s1) ∧
  os_locate tracked_file (PurePath.str q) = os_locate tracked_file "docs/b.txt" ∧
  (PurePath.str q ∉ scanned_keys project (PurePath.of_string "docs/b.txt")) ∧
  is_file tracked_file q = true ∧
  check "/home/proj/docs/b.txt" (State tracked_file [])
  = (Ok tt, State tracked_file ([] ++ [unknown_line q])).
Proof.
  intros s s1 q.
  assert (init "docs/b.txt" s = (Ok tt, s1)) as Hinit by (vm_compute; reflexivity).
  assert (Hk : PurePath.str q ∉ scanned_keys project (PurePath.of_string "docs/b.txt")).
  { assert (scanned_keys project (PurePath.of_string "docs/b.txt") = ["docs/b.txt"])
      as -> by (vm_compute; reflexivity).
    intros Hin%list_elem_of_singleton. vm_compute in Hin. discriminate Hin. }
  assert (is_file tracked_file q = true) as Hf by (vm_compute; reflexivity).
  split_and!; [exact Hinit | vm_compute; reflexivity | exact Hk | exact Hf |].
  exact (check_unknown_other_key "docs/b.txt" "/home/proj/docs/b.txt" s s1
           tracked_file [] Hinit eq_refl Hk Hf).
Defined.

(** X8 on [project]: [init docs/b.txt] then [check docs/b.txt]. *)
Lemma init_file_then_check_witness :
  let s := State project [] in
  let s1 := State tracked_file ["Hashes stored successfully."] in
  let p := PurePath.of_string "docs/b.txt" in
  is_file project p = true ∧
  os_locate project (PurePath.str p) ≠ Some (store_loc project) ∧
  init "docs/b.txt" s = (Ok tt, s1) ∧
  check "docs/b.txt" (State tracked_file [])
  = (Ok tt, State tracked_file ([] ++ ["Status: Unmodified"])).
Proof.
  intros s s1 p.
  assert (is_file project p = true) as Hf by (vm_compute; reflexivity).
  assert (os_locate project (PurePath.str p) ≠ Some (store_loc project)) as Hns
    by (intros Hk; vm_compute in Hk; discriminate Hk).
  assert (init "docs/b.txt" s = (Ok tt, s1)) as Hinit by (vm_compute; reflexivity).
  split_and!; [exact Hf | exact Hns | exact Hinit |].
  exact (init_file_then_check "docs/b.txt" s s1 [] Hf Hns Hinit).
Defined.

(** X9 on [tracked]: [update a.txt] then [check a.txt]. *)
Lemma update_then_check_witness :
  let s := State tracked [] in
  let s1 := State updated ["Hash updated successfully."] in
  let p := PurePath.of_string "a.txt" in
  is_file tracked p = true ∧
  os_locate tracked (PurePath.str p) ≠ Some (store_loc tracked) ∧
  update "a.txt" s = (Ok tt, s1) ∧
  check "a.txt" (State updated [])
  = (Ok tt, State updated ([] ++ ["Status: Unmodified"])).
Proof.
  intros s s1 p.
  assert (is_file tracked p = true) as Hf by (vm_compute; reflexivity).
  assert (os_locate tracked (PurePath.str p) ≠ Some (store_loc tracked)) as Hns
    by (intros Hk; vm_compute in Hk; discriminate Hk).
  assert (update "a.txt" s = (Ok tt, s1)) as Hupd by (vm_compute; reflexivity).
  split_and!; [exact Hf | exact Hns | exact Hupd |].
  exact (update_then_check "a.txt" s s1 [] Hf Hns Hupd).
Defined.

(** X10 on [tracked]: [update a.txt] twice. *)
Lemma update_idempotent_witness :
  let s := State tracked [] in
  let s1 := State updated ["Hash updated successfully."] in
  let p := PurePath.of_string "a.txt" in
  is_file tracked p = true ∧
  os_locate tracked (PurePath.str p) ≠ Some (store_loc tracked) ∧
  update "a.txt" s = (Ok tt, s1) ∧
  update "a.txt" (State updated [])
  = (Ok tt, State updated ([] ++ ["Hash updated successfully."])).
Proof.
  intros s s1 p.
  assert (is_file tracked p = true) as Hf by (vm_compute; reflexivity).
  assert (os_locate tracked (PurePath.str p) ≠ Some (store_loc tracked)) as Hns
    by (intros Hk; vm_compute in Hk; discriminate Hk).
  assert (update "a.txt" s = (Ok tt, s1)) as Hupd by (vm_compute; reflexivity).
  split_and!; [exact Hf | exact Hns | exact Hupd |].
  exact (update_idempotent "a.txt" s s1 [] Hf Hns Hupd).
Defined.



(** X13 on [project]: [init docs] twice, and [init docs/b.txt] twice. *)
Lemma init_idempotent_witness :
  let s := State project [] in
  let s1 := State tracked ["Hashes stored successfully."] in
  let s1' := State tracked_file ["Hashes stored successfully."] in
  let p := PurePath.of_string "docs" in
  let p' := PurePath.of_string "docs/b.txt" in
  let d := ["home"; "proj"; "docs"] in
  init "docs" s = (Ok tt, s1) ∧
  valid_tree (fsroot project) = true ∧
  is_dir project p = true ∧
  os_locate project (PurePath.str p) = Some d ∧
  ¬ d `prefix_of` store_loc project ∧
  init "docs" (State tracked [])
  = (Ok tt, State tracked ([] ++ ["Hashes stored successfully."])) ∧
  init "docs/b.txt" s = (Ok tt, s1') ∧
  is_dir project p' = false ∧
  os_locate project (PurePath.str p') ≠ Some (store_loc project) ∧
  init "docs/b.txt" (State tracked_file [])
  = (Ok tt, State tracked_file ([] ++ ["Hashes stored successfully."])).
Proof.
  intros s s1 s1' p p' d.
  assert (init "docs" s = (Ok tt, s1)) as Hinit by (vm_compute; reflexivity).
  assert (valid_tree (fsroot project) = true) as Hv by (vm_compute; reflexivity).
  assert (is_dir project p = true) as Hd by (vm_compute; reflexivity).
  assert (os_locate project (PurePath.str p) = Some d) as Hloc
    by (vm_compute; reflexivity).
  assert (¬ d `prefix_of` store_loc project) as Hnp
    by (intros [k Hk]; vm_compute in Hk; discriminate Hk).
  assert (init "docs/b.txt" s = (Ok tt, s1')) as Hinit' by (vm_compute; reflexivity).
  assert (is_dir project p' = false) as Hd' by (vm_compute; reflexivity).
  assert (os_locate project (PurePath.str p') ≠ Some (store_loc project)) as Hns
    by (intros Hk; vm_compute in Hk; discriminate Hk).
  split_and!;
    [ exact Hinit | exact Hv | exact Hd | exact Hloc | exact Hnp
    | exact (proj2 (init_idempotent "docs" s s1 [] Hinit) d Hv Hd Hloc Hnp)
    | exact Hinit' | exact Hd' | exact Hns
    | exact (proj1 (init_idempotent "docs/b.txt" s s1' [] Hinit') Hd' Hns) ].
Defined.



(** X17 on [tracked]: what [check docs] prints. *)
Lemma check_directory_output_witness :
  let s := State tracked [] in
  let p := PurePath.of_string "docs" in
  is_dir tracked p = true ∧
  check "docs" s = (Ok tt, (check "docs" s).2) ∧
  ∃ lines,
    Forall2 (fun q l =>
               l = unknown_line q ∨ l = "Status: Unmodified" ∨
               l = "Status: Modified (Hash mismatch)")
            (filter (fun q => is_file tracked q = true) (rglob tracked p)) lines ∧
    stdout (check "docs" s).2
    = [] ++ flat_map (fun ql => [checking_line ql.1; ql.2])
                     (zip (filter (fun q => is_file tracked q = true)
                                  (rglob tracked p)) lines).
Proof.
  intros s p.
  assert (is_dir tracked p = true) as Hd by (vm_compute; reflexivity).
  assert (check "docs" s = (Ok tt, (check "docs" s).2)) as Hc
    by (vm_compute; reflexivity).
  split_and!; [exact Hd | exact Hc |].
  exact (check_directory_output "docs" s _ Hd Hc).
Defined.

End FurtherSamples.
